(** * PMC OAI-PMH search: harvest loop, record extraction and local filter

    A shallow embedding of [src/app.py]: the helper [text_match], the
    harvester [fetch_pmc_oai_records] and the filter loop of the button
    handler, with the properties the specification states about them.

    Python [str] values are modelled as [string]; a character is a code
    point in the range 0..255, so the character classes below are the ones
    Python uses on that range ([str.isspace], [str.lower], the regular
    expression class [\d]). The title test is given a second time on
    strings of arbitrary code points, in [Unicode], where [str.lower]
    depends on the context of a character. *)

From Stdlib Require Import ZArith NArith List Bool Ascii String Lia.
Import ListNotations.

Local Open Scope string_scope.
Local Open Scope list_scope.

(** ** Python string primitives used by the program *)

Module PyStr.

(** [str.isspace] on one character: the separators of [str.split()]. *)
Definition isspace (c : ascii) : bool :=
  let n := N_of_ascii c in
  ((9 <=? n) && (n <=? 13) || (28 <=? n) && (n <=? 32)
   || (n =? 133) || (n =? 160))%N.

(** The class [\d] of the [re] module, which is also the set of digits
    [int] accepts. *)
Definition isdecimal (c : ascii) : bool :=
  let n := N_of_ascii c in ((48 <=? n) && (n <=? 57))%N.

(** [str.lower] on one character: A-Z and the upper-case letters
    0xC0..0xDE (without the multiplication sign 0xD7) move up by 32. *)
Definition lower_char (c : ascii) : ascii :=
  let n := N_of_ascii c in
  if ((65 <=? n) && (n <=? 90)
      || (192 <=? n) && (n <=? 222) && negb (n =? 215))%N
  then ascii_of_N (n + 32) else c.

Fixpoint lower (s : string) : string :=
  match s with
  | EmptyString => EmptyString
  | String c s' => String (lower_char c) (lower s')
  end.

(** The truth value of a string: [if s] holds for a non-empty [s]. *)
Definition truthy (s : string) : bool :=
  match s with EmptyString => false | String _ _ => true end.

(** [str.split()] without arguments: the maximal runs of characters that
    are not white space, in order. [word] is the run being read. *)
Definition flush (word : string) : list string :=
  if truthy word then [word] else [].

Fixpoint split_from (word s : string) : list string :=
  match s with
  | EmptyString => flush word
  | String c s' =>
      if isspace c then flush word ++ split_from EmptyString s'
      else split_from (word ++ String c EmptyString) s'
  end.

Definition split (s : string) : list string := split_from EmptyString s.

(** [s.startswith(p)]. *)
Definition startswith (s p : string) : bool := String.prefix p s.

(** [w in t] on strings: [w] occurs at some position of [t]. *)
Fixpoint contains (w t : string) : bool :=
  String.prefix w t
  || match t with
     | EmptyString => false
     | String _ t' => contains w t'
     end.

(** [sep.join(l)]. *)
Definition join (sep : string) (l : list string) : string :=
  String.concat sep l.

(** [re.search(r"\d{4}", s)]: the pattern is tried at each position from
    the left, and the first position where four digits follow gives the
    match; [m.group()] is the matched text. *)
Definition match_d4 (s : string) : option string :=
  match s with
  | String a (String b (String c (String d _))) =>
      if isdecimal a && isdecimal b && isdecimal c && isdecimal d
      then Some (String a (String b (String c (String d EmptyString))))
      else None
  | _ => None
  end.

Fixpoint search_d4 (s : string) : option string :=
  match match_d4 s with
  | Some g => Some g
  | None =>
      match s with
      | EmptyString => None
      | String _ s' => search_d4 s'
      end
  end.

(** [int(s)] in base 10; [None] stands for [ValueError]. White space is
    stripped at both ends, one sign may follow, then digits, where single
    underscores may stand between two digits. *)
Definition int_space (c : ascii) : bool :=
  let n := N_of_ascii c in
  ((9 <=? n) && (n <=? 13) || (n =? 32) || (n =? 133) || (n =? 160))%N.

Definition digit_value (c : ascii) : Z := Z.of_N (N_of_ascii c) - 48.

Fixpoint lstrip (s : string) : string :=
  match s with
  | String c s' => if int_space c then lstrip s' else s
  | EmptyString => EmptyString
  end.

Fixpoint all_space (s : string) : bool :=
  match s with
  | String c s' => int_space c && all_space s'
  | EmptyString => true
  end.

(** The digits after the first one: the value read so far is [acc]. *)
Fixpoint int_digits (acc : Z) (s : string) : option (Z * string) :=
  match s with
  | EmptyString => Some (acc, s)
  | String c s' =>
      if isdecimal c then int_digits (10 * acc + digit_value c) s'
      else if Ascii.eqb c "_" then
        match s' with
        | String d s'' =>
            if isdecimal d then int_digits (10 * acc + digit_value d) s''
            else None
        | EmptyString => None
        end
      else Some (acc, s)
  end.

Definition int_unsigned (s : string) : option Z :=
  match s with
  | String c s' =>
      if isdecimal c then
        match int_digits (digit_value c) s' with
        | Some (v, rest) => if all_space rest then Some v else None
        | None => None
        end
      else None
  | EmptyString => None
  end.

Definition int (s : string) : option Z :=
  match lstrip s with
  | String c s' =>
      if Ascii.eqb c "-" then option_map Z.opp (int_unsigned s')
      else if Ascii.eqb c "+" then int_unsigned s'
      else int_unsigned (String c s')
  | EmptyString => None
  end.

End PyStr.

(** ** The helper [text_match] *)

Definition text_match (text query : string) : bool :=
  if negb (PyStr.truthy text) then false
  else
    let words := PyStr.split (PyStr.lower query) in
    let text := PyStr.lower text in
    forallb (fun w => PyStr.contains w text) words.

(** ** The parsed response: an ElementTree element

    Only what the program reads is kept: the tag (with its namespace
    expanded, as ElementTree stores it), the text ([None] when the element
    has none) and the children in document order. *)

#[local] Set Warnings "-register-all".

Inductive Element : Type :=
| Elem (tag : string) (text : option string) (children : list Element).

Definition tag (e : Element) : string :=
  match e with Elem t _ _ => t end.

Definition text (e : Element) : option string :=
  match e with Elem _ x _ => x end.

Definition children (e : Element) : list Element :=
  match e with Elem _ _ cs => cs end.

(** The namespace map [ns] of the program, applied to a prefixed name. *)
Definition oai (name : string) : string :=
  "{http://www.openarchives.org/OAI/2.0/}" ++ name.

Definition dc (name : string) : string :=
  "{http://purl.org/dc/elements/1.1/}" ++ name.

Definition has_tag (t : string) (e : Element) : bool := String.eqb (tag e) t.

(** [e.find(t)] and [e.findall(t)]: the children of [e] with tag [t]. *)
Definition find (t : string) (e : Element) : option Element :=
  List.find (has_tag t) (children e).

Definition findall (t : string) (e : Element) : list Element :=
  List.filter (has_tag t) (children e).

(** The proper descendants of [e] in document order, which the paths
    [.//t] range over. *)
Fixpoint descendants (e : Element) : list Element :=
  match e with
  | Elem _ _ cs => flat_map (fun c => c :: descendants c) cs
  end.

Definition find_desc (t : string) (e : Element) : option Element :=
  List.find (has_tag t) (descendants e).

Definition findall_desc (t : string) (e : Element) : list Element :=
  List.filter (has_tag t) (descendants e).

(** [[e.text for e in el.findall(t) if e.text]]. *)
Definition nonempty_text (e : Element) : list string :=
  match text e with
  | Some s => if PyStr.truthy s then [s] else []
  | None => []
  end.

Definition texts (t : string) (el : Element) : list string :=
  flat_map nonempty_text (findall t el).

(** ** Records *)

Record RawRecord : Type := mkRecord {
  Title : string;
  Authors : string;
  Year : string;
  PMCID : string;
  DOI : string
}.

(** The loop over [identifiers]: each identifier with the prefix
    overwrites what an earlier one left. *)
Definition scan_step (st : string * string) (i : string) : string * string :=
  let pmcid := if PyStr.startswith i "PMC" then i else fst st in
  let doi := if PyStr.startswith i "10." then i else snd st in
  (pmcid, doi).

Definition scan_identifiers (identifiers : list string) : string * string :=
  fold_left scan_step identifiers (EmptyString, EmptyString).

Definition extract_year (dates : list string) : string :=
  match dates with
  | d0 :: _ =>
      match PyStr.search_d4 d0 with
      | Some g => g
      | None => EmptyString
      end
  | [] => EmptyString
  end.

(** The body of the record loop from the flat-metadata element on. *)
Definition make_record (dcel : Element) : RawRecord :=
  let title := PyStr.join "; " (texts (dc "title") dcel) in
  let creators := PyStr.join "; " (texts (dc "creator") dcel) in
  let identifiers := texts (dc "identifier") dcel in
  let dates := texts (dc "date") dcel in
  let ids := scan_identifiers identifiers in
  {| Title := title; Authors := creators; Year := extract_year dates;
     PMCID := fst ids; DOI := snd ids |}.

(** The two look-ups that guard the body: [None] is the [continue]. *)
Definition flat_metadata (rec : Element) : option Element :=
  match find (oai "metadata") rec with
  | None => None
  | Some meta => find (dc "dc") meta
  end.

(** ** The harvest loop *)

(** How the [for] loop over the record elements ends: it runs to the end
    of the batch, or the function returns from inside it. *)
Inductive Flow : Type :=
| Continue (records : list RawRecord)
| Return (records : list RawRecord).

Fixpoint process_records (max_records : Z) (recs : list Element)
    (records : list RawRecord) : Flow :=
  match recs with
  | [] => Continue records
  | rec :: rest =>
      match flat_metadata rec with
      | None => process_records max_records rest records
      | Some dcel =>
          let records := records ++ [make_record dcel] in
          if (Z.of_nat (List.length records) >=? max_records)%Z
          then Return records
          else process_records max_records rest records
      end
  end.

(** The query parameters of a request, as the dictionary lists them. *)
Definition Params : Type := list (string * string).

Definition initial_params : Params :=
  [("verb", "ListRecords"); ("metadataPrefix", "oai_dc")].

Definition resume_params (token : string) : Params :=
  [("verb", "ListRecords"); ("resumptionToken", token)].

(** What one pass through the first three statements of the loop body
    gives: an exception of [requests.get] (no connection, or the 30 second
    timeout), of [raise_for_status], of [ET.fromstring], or the root. *)
Inductive Error : Type :=
| ConnectionError
| Timeout
| HTTPError
| ParseError.

Inductive Response : Type :=
| Fails (e : Error)
| Parsed (root : Element).

(** The endpoint answers the request number [i] of a session (counted
    from 0) that carries the parameters [p]. *)
Definition Endpoint : Type := nat -> Params -> Response.

Inductive Outcome : Type :=
| Returned (records : list RawRecord)
| Raised (e : Error).

(** The text of the continuation token when the loop goes on. *)
Definition next_token (root : Element) : option string :=
  match find_desc (oai "resumptionToken") root with
  | None => None
  | Some token =>
      match text token with
      | Some s => if PyStr.truthy s then Some s else None
      | None => None
      end
  end.

(** [while True]: one unit of fuel per pass; [None] when the fuel is used
    up before the loop is left. The requests sent so far are logged. *)
Fixpoint harvest_loop (fuel : nat) (endpoint : Endpoint) (max_records : Z)
    (params : Params) (records : list RawRecord) (log : list Params)
    : option (Outcome * list Params) :=
  match fuel with
  | O => None
  | S fuel' =>
      let sent := log ++ [params] in
      match endpoint (List.length log) params with
      | Fails e => Some (Raised e, sent)
      | Parsed root =>
          match process_records max_records
                  (findall_desc (oai "record") root) records with
          | Return records => Some (Returned records, sent)
          | Continue records =>
              match next_token root with
              | None => Some (Returned records, sent)
              | Some token =>
                  harvest_loop fuel' endpoint max_records
                    (resume_params token) records sent
              end
          end
      end
  end.

Definition fetch_pmc_oai_records (fuel : nat) (endpoint : Endpoint)
    (max_records : Z) : option (Outcome * list Params) :=
  harvest_loop fuel endpoint max_records initial_params [] [].

(** ** The filter loop of the button handler *)

(** [not r["Year"] or from_year <= int(r["Year"]) <= to_year]; [None]
    when [int] raises. *)
Definition year_ok (r : RawRecord) (from_year to_year : Z) : option bool :=
  if negb (PyStr.truthy (Year r)) then Some true
  else
    match PyStr.int (Year r) with
    | None => None
    | Some y => Some ((from_year <=? y)%Z && (y <=? to_year)%Z)
    end.

Definition keep (r : RawRecord) (search_query : string)
    (from_year to_year : Z) : option bool :=
  if text_match (Title r) search_query
  then year_ok r from_year to_year
  else Some false.

Fixpoint filter_loop (raw_records : list RawRecord) (search_query : string)
    (from_year to_year : Z) (filtered : list RawRecord)
    : option (list RawRecord) :=
  match raw_records with
  | [] => Some filtered
  | r :: rest =>
      match keep r search_query from_year to_year with
      | None => None
      | Some true =>
          filter_loop rest search_query from_year to_year (filtered ++ [r])
      | Some false =>
          filter_loop rest search_query from_year to_year filtered
      end
  end.

Definition filter_records (raw_records : list RawRecord)
    (search_query : string) (from_year to_year : Z)
    : option (list RawRecord) :=
  filter_loop raw_records search_query from_year to_year [].

(** ** The link to the PMC search and the button handler *)

Module PyUrl.

(** [str.encode("utf-8")] on one character below 256: one byte below
    128, two bytes from there on. *)
Definition utf8 (c : ascii) : list ascii :=
  let n := N_of_ascii c in
  if (n <? 128)%N then [c]
  else [ascii_of_N (192 + n / 64); ascii_of_N (128 + n mod 64)].

Definition encode (s : string) : list ascii :=
  flat_map utf8 (list_ascii_of_string s).

(** The bytes [quote] never escapes: letters, digits and [_.-~]. *)
Definition always_safe (b : ascii) : bool :=
  let n := N_of_ascii b in
  ((65 <=? n) && (n <=? 90) || (97 <=? n) && (n <=? 122)
   || (48 <=? n) && (n <=? 57)
   || (n =? 95) || (n =? 46) || (n =? 45) || (n =? 126))%N.

(** The default of the argument [safe] is "/". *)
Definition default_safe (b : ascii) : bool := Ascii.eqb b "/".

Definition hex_digit (n : N) : ascii :=
  if (n <? 10)%N then ascii_of_N (48 + n) else ascii_of_N (55 + n).

(** One byte of the result: itself, or [%XX] in upper-case hexadecimal. *)
Definition quote_byte (b : ascii) : string :=
  if always_safe b || default_safe b then String b EmptyString
  else
    let n := N_of_ascii b in
    String "%" (String (hex_digit (n / 16))
                  (String (hex_digit (n mod 16)) EmptyString)).

Fixpoint quote_from_bytes (bs : list ascii) : string :=
  match bs with
  | [] => EmptyString
  | b :: bs' => (quote_byte b ++ quote_from_bytes bs')%string
  end.

(** [urllib.parse.quote(s)]. *)
Definition quote (s : string) : string := quote_from_bytes (encode s).

End PyUrl.

Definition pmc_search_url (search_query : string) : string :=
  ("https://www.ncbi.nlm.nih.gov/pmc/?term=" ++ PyUrl.quote search_query)
  %string.

(** What a click on the button leads to: an exception that leaves the
    handler, or the page with the filtered rows, their number in the
    message, the table and the downloads when there are rows, and the
    link. *)
Inductive Exception : Type :=
| HarvestError (e : Error)
| ValueError.

Inductive Run : Type :=
| Crash (e : Exception)
| Rendered (filtered : list RawRecord) (found : nat) (table : bool)
    (url : string).

Definition on_click (fuel : nat) (endpoint : Endpoint)
    (search_query : string) (from_year to_year max_results : Z)
    : option Run :=
  match fetch_pmc_oai_records fuel endpoint max_results with
  | None => None
  | Some (Raised e, _) => Some (Crash (HarvestError e))
  | Some (Returned raw_records, _) =>
      match filter_records raw_records search_query from_year to_year with
      | None => Some (Crash ValueError)
      | Some filtered =>
          Some (Rendered filtered (List.length filtered)
                  (match filtered with [] => false | _ :: _ => true end)
                  (pmc_search_url search_query))
      end
  end.

(** ** Text over all code points

    [text_match] once more, on strings of arbitrary code points. There
    [str.lower] is no longer a map on single characters: the capital sigma
    U+03A3 becomes the final sigma U+03C2 or the small sigma U+03C3 by
    what stands around it, and every other character is replaced by the
    sequence the character database gives for it. The database is what
    the definitions are given: the full lower-case mapping, the properties
    Cased and Case_Ignorable, and the white space of [str.split]. *)

Module Unicode.

Definition capital_sigma : N := 931.
Definition final_sigma : N := 962.
Definition small_sigma : N := 963.

Section Database.

Variable to_lower_full : N -> list N.
Variable is_cased : N -> bool.
Variable is_case_ignorable : N -> bool.
Variable is_space : N -> bool.

(** The first character that is not case-ignorable. *)
Fixpoint skip_ignorable (s : list N) : option N :=
  match s with
  | [] => None
  | c :: rest => if is_case_ignorable c then skip_ignorable rest else Some c
  end.

(** The lower case of a capital sigma. [before] holds the characters
    before it, the nearest first, and [after] those after it. The sigma
    is final when a cased character stands before it, case-ignorable
    characters apart, and none stands after it in the same way. *)
Definition handle_capital_sigma (before after : list N) : N :=
  let final :=
    match skip_ignorable before with
    | Some c => is_cased c
    | None => false
    end
    && match skip_ignorable after with
       | Some c => negb (is_cased c)
       | None => true
       end in
  if final then final_sigma else small_sigma.

Fixpoint do_lower (before s : list N) : list N :=
  match s with
  | [] => []
  | c :: rest =>
      (if (c =? capital_sigma)%N then [handle_capital_sigma before rest]
       else to_lower_full c)
      ++ do_lower (c :: before) rest
  end.

(** [s.lower()]. *)
Definition lower (s : list N) : list N := do_lower [] s.

(** The lower case of a character whose mapping is one character. *)
Definition lower_one (c : N) : N :=
  match to_lower_full c with
  | d :: _ => d
  | [] => c
  end.

Definition truthy (s : list N) : bool :=
  match s with [] => false | _ :: _ => true end.

Definition flush (word : list N) : list (list N) :=
  if truthy word then [word] else [].

(** [s.split()]. *)
Fixpoint split_from (word s : list N) : list (list N) :=
  match s with
  | [] => flush word
  | c :: s' =>
      if is_space c then flush word ++ split_from [] s'
      else split_from (word ++ [c]) s'
  end.

Definition split (s : list N) : list (list N) := split_from [] s.

Fixpoint prefix (w t : list N) : bool :=
  match w with
  | [] => true
  | a :: w' =>
      match t with
      | [] => false
      | b :: t' => (a =? b)%N && prefix w' t'
      end
  end.

(** [w in t]. *)
Fixpoint contains (w t : list N) : bool :=
  prefix w t
  || match t with
     | [] => false
     | _ :: t' => contains w t'
     end.

Definition text_match (text query : list N) : bool :=
  if negb (truthy text) then false
  else
    let words := split (lower query) in
    let text := lower text in
    forallb (fun w => contains w text) words.

(** [w] stands in [t] as a contiguous piece. *)
Definition Piece (w t : list N) : Prop :=
  exists pre post, t = pre ++ w ++ post.

(** [w] occurs in [t] when case is ignored: a piece of [t] and [w] are
    the same once each is put in lower case. *)
Definition OccursIgnoringCase (w t : list N) : Prop :=
  exists pre u post, t = pre ++ u ++ post /\ lower u = lower w.

(** A character that [lower] maps by itself to one character: not the
    capital sigma, and with a mapping of length one. *)
Definition Simple (c : N) : Prop :=
  c <> capital_sigma /\ exists d, to_lower_full c = [d].

End Database.

(** *** An excerpt of the database

    The rows for U+0000..U+00FF and for the Greek block U+0370..U+03FF.
    No other row is given: the excerpt leaves such a character as it is,
    so it speaks for text over these two ranges only. [excerpt_is_cased]
    is right on the characters that are not case-ignorable, the only ones
    [handle_capital_sigma] asks it about. *)

Definition in_range (lo hi c : N) : bool := ((lo <=? c) && (c <=? hi))%N.

Definition excerpt_to_lower_full (c : N) : list N :=
  if (1024 <=? c)%N then [c]
  else if in_range 65 90 c || in_range 192 214 c || in_range 216 222 c
          || in_range 913 929 c || in_range 931 939 c
  then [c + 32]%N
  else if in_range 904 906 c then [c + 37]%N
  else if (c =? 902)%N then [940]%N
  else if in_range 910 911 c then [c + 63]%N
  else if (c =? 908)%N then [972]%N
  else if (c =? 895)%N then [1011]%N
  else if (c =? 975)%N then [983]%N
  else if (c =? 880)%N || (c =? 882)%N || (c =? 886)%N
          || (c =? 1015)%N || (c =? 1018)%N
          || in_range 984 1006 c && N.even c
  then [c + 1]%N
  else if (c =? 1012)%N then [952]%N
  else if (c =? 1017)%N then [1010]%N
  else if in_range 1021 1023 c then [c - 130]%N
  else [c].

Definition excerpt_is_case_ignorable (c : N) : bool :=
  (c =? 39)%N || (c =? 46)%N || (c =? 58)%N || (c =? 94)%N || (c =? 96)%N
  || (c =? 168)%N || (c =? 173)%N || (c =? 175)%N || (c =? 180)%N
  || in_range 183 184 c
  || in_range 884 885 c || (c =? 890)%N || in_range 900 901 c
  || (c =? 903)%N.

Definition excerpt_is_cased (c : N) : bool :=
  in_range 65 90 c || in_range 97 122 c
  || (c =? 170)%N || (c =? 181)%N || (c =? 186)%N
  || in_range 192 214 c || in_range 216 246 c || in_range 248 255 c
  || in_range 880 883 c || in_range 886 887 c || in_range 891 893 c
  || (c =? 895)%N || (c =? 902)%N || in_range 904 906 c || (c =? 908)%N
  || in_range 910 929 c || in_range 931 1013 c || in_range 1015 1023 c.

Definition excerpt_is_space (c : N) : bool :=
  in_range 9 13 c || in_range 28 32 c || (c =? 133)%N || (c =? 160)%N.

Definition excerpt_lower : list N -> list N :=
  lower excerpt_to_lower_full excerpt_is_cased excerpt_is_case_ignorable.

Definition excerpt_text_match : list N -> list N -> bool :=
  text_match excerpt_to_lower_full excerpt_is_cased
    excerpt_is_case_ignorable excerpt_is_space.

(** The code points of a string of the 8-bit model. *)
Definition codes (s : string) : list N :=
  map N_of_ascii (list_ascii_of_string s).

End Unicode.

(** ** The vocabulary of the properties *)

(** [w] occurs in [t] as a contiguous piece. *)
Definition Substring (w t : string) : Prop :=
  exists pre post, t = (pre ++ w ++ post)%string.

(** [w] occurs in [t] when case is ignored: the two are compared after
    lower-casing. *)
Definition occurs_ignoring_case (w t : string) : Prop :=
  Substring (PyStr.lower w) (PyStr.lower t).

(** Some character of [s] is white space. *)
Fixpoint any_space (s : string) : bool :=
  match s with
  | EmptyString => false
  | String c s' => PyStr.isspace c || any_space s'
  end.

(** [x] is the last element of [ids] that starts with [prefix], and the
    empty string when no element does. *)
Definition LastWith (prefix : string) (ids : list string) (x : string)
    : Prop :=
  (x = EmptyString /\ forall i, In i ids -> PyStr.startswith i prefix = false)
  \/ (exists pre post,
        ids = pre ++ x :: post
        /\ PyStr.startswith x prefix = true
        /\ forall i, In i post -> PyStr.startswith i prefix = false).

(** A string of decimal digits only. *)
Fixpoint all_decimal (s : string) : bool :=
  match s with
  | EmptyString => true
  | String c s' => PyStr.isdecimal c && all_decimal s'
  end.

(** A string of exactly four decimal digits. *)
Definition four_digits (g : string) : Prop :=
  String.length g = 4%nat /\ all_decimal g = true.

(** [g] is the leftmost run of four digits in [d]. *)
Definition FirstD4 (d g : string) : Prop :=
  exists pre post,
    d = (pre ++ g ++ post)%string
    /\ four_digits g
    /\ forall pre' g' post',
         d = (pre' ++ g' ++ post')%string -> four_digits g' ->
         (String.length pre <= String.length pre')%nat.

(** No four digits stand next to each other anywhere in [d]. *)
Definition NoD4 (d : string) : Prop :=
  forall pre g post, d = (pre ++ g ++ post)%string -> ~ four_digits g.

(** The records a pass over a batch leaves, however it ends. *)
Definition flow_records (f : Flow) : list RawRecord :=
  match f with Continue r => r | Return r => r end.

(** What the loop does next, once a first part of the batch is done. *)
Definition and_then (f : Flow) (k : list RawRecord -> Flow) : Flow :=
  match f with
  | Continue records => k records
  | Return records => Return records
  end.

(** Every batch that comes with a token adds a record. *)
Definition token_pages_add_records (endpoint : Endpoint) : Prop :=
  forall i p root,
    endpoint i p = Parsed root -> next_token root <> None ->
    exists rec dcel,
      In rec (findall_desc (oai "record") root)
      /\ flat_metadata rec = Some dcel.

(** The Year is empty or has four digits. *)
Definition year_wf (r : RawRecord) : Prop :=
  Year r = EmptyString \/ four_digits (Year r).

(** [l1] is [l2] with some elements left out: the elements kept stand in
    the order they have in [l2], each position used at most once. *)
Inductive Subsequence {A : Type} : list A -> list A -> Prop :=
| sub_nil : Subsequence [] []
| sub_skip (x : A) (l1 l2 : list A) :
    Subsequence l1 l2 -> Subsequence l1 (x :: l2)
| sub_keep (x : A) (l1 l2 : list A) :
    Subsequence l1 l2 -> Subsequence (x :: l1) (x :: l2).

(** Both tests of the filter hold for [r]. *)
Definition passes (search_query : string) (from_year to_year : Z)
    (r : RawRecord) : bool :=
  text_match (Title r) search_query
  && match year_ok r from_year to_year with
     | Some b => b
     | None => false
     end.

(** The records a record element gives, and those of a whole response, in
    document order. *)
Definition record_of (rec : Element) : list RawRecord :=
  match flat_metadata rec with
  | Some dcel => [make_record dcel]
  | None => []
  end.

Definition page_records (root : Element) : list RawRecord :=
  flat_map record_of (findall_desc (oai "record") root).

(** [l1] is a first part of [l2]. *)
Definition Prefix {A : Type} (l1 l2 : list A) : Prop :=
  exists rest, l2 = l1 ++ rest.

(** [roots] are the documents the endpoint gave to the requests [log], one
    by one. *)
Definition answers (endpoint : Endpoint) (log : list Params)
    (roots : list Element) : Prop :=
  List.length roots = List.length log
  /\ forall i root,
       nth_error roots i = Some root ->
       exists p, nth_error log i = Some p /\ endpoint i p = Parsed root.

(** Every character of [s] is white space. *)
Fixpoint all_isspace (s : string) : bool :=
  match s with
  | EmptyString => true
  | String c s' => PyStr.isspace c && all_isspace s'
  end.

(** The characters [quote] can put out. *)
Definition url_char (c : ascii) : bool :=
  PyUrl.always_safe c || Ascii.eqb c "/" || Ascii.eqb c "%".

Fixpoint all_url_chars (s : string) : bool :=
  match s with
  | EmptyString => true
  | String c s' => url_char c && all_url_chars s'
  end.

Fixpoint all_safe (s : string) : bool :=
  match s with
  | EmptyString => true
  | String c s' =>
      (PyUrl.always_safe c || PyUrl.default_safe c) && all_safe s'
  end.

(** The shape of the identifiers of a record. *)
Definition ids_wf (r : RawRecord) : Prop :=
  (PMCID r = EmptyString \/ PyStr.startswith (PMCID r) "PMC" = true)
  /\ (DOI r = EmptyString \/ PyStr.startswith (DOI r) "10." = true)
  /\ (PMCID r = DOI r -> PMCID r = EmptyString).

(** Reading a quoted string back: the bytes behind the escapes, and the
    characters behind the bytes. *)
Definition unhex (c : ascii) : N :=
  let n := N_of_ascii c in
  if (n <? 58)%N then (n - 48)%N else (n - 55)%N.

Fixpoint unquote_bytes (s : string) : list ascii :=
  match s with
  | EmptyString => []
  | String c s' =>
      if Ascii.eqb c "%" then
        match s' with
        | String h (String l s'') =>
            ascii_of_N (16 * unhex h + unhex l) :: unquote_bytes s''
        | _ => []
        end
      else c :: unquote_bytes s'
  end.

Fixpoint utf8_decode (bs : list ascii) : string :=
  match bs with
  | [] => EmptyString
  | b :: bs' =>
      let n := N_of_ascii b in
      if (n <? 128)%N then String b (utf8_decode bs')
      else
        match bs' with
        | b2 :: bs'' =>
            String (ascii_of_N ((n - 192) * 64 + (N_of_ascii b2 - 128)))
              (utf8_decode bs'')
        | [] => EmptyString
        end
  end.

(** ** Scenarios

    Responses and endpoints on which the properties are tried. *)

Definition title_el (s : string) : Element := Elem (dc "title") (Some s) [].
Definition creator_el (s : string) : Element := Elem (dc "creator") (Some s) [].
Definition identifier_el (s : string) : Element :=
  Elem (dc "identifier") (Some s) [].
Definition date_el (s : string) : Element := Elem (dc "date") (Some s) [].

Definition dc_el (fields : list Element) : Element :=
  Elem (dc "dc") None fields.

Definition record_el (fields : list Element) : Element :=
  Elem (oai "record") None
    [Elem (oai "header") None [];
     Elem (oai "metadata") None [dc_el fields]].

Definition token_el (s : option string) : Element :=
  Elem (oai "resumptionToken") s [].

Definition page (items : list Element) : Element :=
  Elem (oai "OAI-PMH") None [Elem (oai "ListRecords") None items].

Definition fields_a : list Element :=
  [title_el "Antibacterial suture coatings";
   creator_el "Doe, J"; creator_el "Roe, R";
   identifier_el "PMC1234567"; identifier_el "10.1000/xyz";
   identifier_el "PMC7654321";
   date_el "circa late 2005 reprint"].

Definition fields_b : list Element :=
  [title_el "Wound healing"; date_el "unknown"].

Definition fields_c : list Element :=
  [title_el "Triclosan SUTURES in surgery"; date_el "1998-03-01"].

Definition rec_a : Element := record_el fields_a.
Definition rec_b : Element := record_el fields_b.
Definition rec_c : Element := record_el fields_c.

(** A record element without metadata (a deleted record) and one whose
    metadata holds no flat-metadata element. *)
Definition rec_deleted : Element :=
  Elem (oai "record") None [Elem (oai "header") None []].

Definition rec_no_dc : Element :=
  Elem (oai "record") None [Elem (oai "metadata") None []].

(** Two pages: two records and the token "abc", then one record. *)
Definition two_pages : Endpoint :=
  fun i _ =>
    match i with
    | O => Parsed (page [rec_a; rec_b; token_el (Some "abc")])
    | _ => Parsed (page [rec_c; token_el None])
    end.

(** One page of six record elements, one of them without metadata. *)
Definition one_page : Endpoint :=
  fun _ _ => Parsed (page [rec_a; rec_deleted; rec_b; rec_c; rec_a; rec_b]).

(** The second request fails with status 500. *)
Definition second_fails : Endpoint :=
  fun i _ =>
    match i with
    | O => Parsed (page [rec_a; rec_b; token_el (Some "abc")])
    | _ => Fails HTTPError
    end.

(** Every response is an empty batch with a continuation token. *)
Definition token_only : Endpoint :=
  fun _ _ => Parsed (page [token_el (Some "abc")]).

(** A page of twelve records. *)
Definition twelve : Endpoint :=
  fun _ _ => Parsed (page (repeat rec_c 12 ++ [token_el (Some "more")])).

(** * Properties *)

(** ** Strings *)

Section StringFacts.

Local Open Scope string_scope.

Lemma prefix_iff (p s : string) :
  String.prefix p s = true <-> exists post, s = p ++ post.
Proof.
  revert s; induction p as [|a p IH]; intros s; simpl.
  - destruct s; split; intros; try reflexivity; eexists; reflexivity.
  - destruct s as [|b s]; simpl.
    + split; [discriminate | intros [post H]; discriminate].
    + destruct (Ascii.ascii_dec a b) as [->|Hne].
      * rewrite IH; split; intros [post H]; exists post.
        -- now rewrite H.
        -- now inversion H.
      * split; [discriminate | intros [post H]; simpl in H; congruence].
Qed.

Lemma contains_iff (w t : string) :
  PyStr.contains w t = true <-> Substring w t.
Proof.
  unfold Substring; induction t as [|c t IH]; cbn [PyStr.contains].
  - rewrite orb_false_r, prefix_iff; split.
    + intros [post H]; exists EmptyString, post; exact H.
    + intros [pre [post H]]; destruct pre; simpl in H.
      * exists post; exact H.
      * discriminate.
  - rewrite orb_true_iff, prefix_iff, IH; split.
    + intros [[post H] | [pre [post H]]].
      * exists EmptyString, post; exact H.
      * exists (String c pre), post; simpl; now rewrite H.
    + intros [pre [post H]]; destruct pre as [|d pre]; simpl in H.
      * left; exists post; exact H.
      * right; exists pre, post; now inversion H.
Qed.

Lemma isspace_lower_char (c : ascii) :
  PyStr.isspace (PyStr.lower_char c) = PyStr.isspace c.
Proof.
  destruct c as [[] [] [] [] [] [] [] []]; reflexivity.
Qed.

Lemma lower_app (a b : string) :
  PyStr.lower (a ++ b) = PyStr.lower a ++ PyStr.lower b.
Proof.
  induction a as [|c a IH]; simpl; [reflexivity | now rewrite IH].
Qed.

Lemma truthy_lower (s : string) :
  PyStr.truthy (PyStr.lower s) = PyStr.truthy s.
Proof. destruct s; reflexivity. Qed.

Lemma truthy_false (s : string) : PyStr.truthy s = false <-> s = EmptyString.
Proof. destruct s; simpl; split; congruence. Qed.

Lemma flush_lower (w : string) :
  PyStr.flush (PyStr.lower w) = map PyStr.lower (PyStr.flush w).
Proof.
  unfold PyStr.flush; rewrite truthy_lower; destruct (PyStr.truthy w);
    reflexivity.
Qed.

(** Lower-casing the query before it is split gives the lower-cased words
    of the query. *)
Lemma split_from_lower (s word : string) :
  PyStr.split_from (PyStr.lower word) (PyStr.lower s)
  = map PyStr.lower (PyStr.split_from word s).
Proof.
  revert word; induction s as [|c s IH]; intros word; simpl.
  - apply flush_lower.
  - rewrite isspace_lower_char; destruct (PyStr.isspace c).
    + rewrite map_app, <- flush_lower; f_equal; apply (IH EmptyString).
    + rewrite <- IH, lower_app; reflexivity.
Qed.

Lemma split_lower (s : string) :
  PyStr.split (PyStr.lower s) = map PyStr.lower (PyStr.split s).
Proof. apply (split_from_lower s EmptyString). Qed.

Lemma any_space_app (a b : string) :
  any_space (a ++ b) = any_space a || any_space b.
Proof.
  induction a as [|c a IH]; simpl; [reflexivity|].
  now rewrite IH, orb_assoc.
Qed.

(** The words of [split] are not empty and hold no white space. *)
Lemma split_from_words (s word : string) :
  any_space word = false ->
  Forall (fun w => w <> EmptyString /\ any_space w = false)
    (PyStr.split_from word s).
Proof.
  assert (forall w, any_space w = false ->
            Forall (fun w => w <> EmptyString /\ any_space w = false)
              (PyStr.flush w)) as Hflush.
  { intros [|c w] Hw; unfold PyStr.flush; simpl; constructor;
      [split; [discriminate | exact Hw] | constructor]. }
  revert word; induction s as [|c s IH]; intros word Hword; simpl.
  - now apply Hflush.
  - destruct (PyStr.isspace c) eqn:Ec.
    + apply Forall_app; split; [now apply Hflush | now apply IH].
    + apply IH; rewrite any_space_app, Hword; simpl; now rewrite Ec.
Qed.

Lemma split_words (s : string) :
  Forall (fun w => w <> EmptyString /\ any_space w = false) (PyStr.split s).
Proof. now apply split_from_words. Qed.

End StringFacts.

(** ** The title predicate on 8-bit strings *)

(** On strings of code points below 256, where lower-casing maps
    character by character: [text_match T Q] is true exactly when the
    title [T] is not empty and every white-space delimited word of the
    query [Q] occurs in [T] as a substring when case is ignored; an empty
    title matches no query. *)
Theorem text_match_iff (T Q : string) :
  (text_match T Q = true <->
   T <> EmptyString
   /\ Forall (fun w => occurs_ignoring_case w T) (PyStr.split Q))
  /\ text_match EmptyString Q = false.
Proof.
  split; [|reflexivity].
  unfold text_match, occurs_ignoring_case.
  destruct T as [|c T]; simpl negb; cbv iota.
  - split; [discriminate | intros [H _]; now elim H].
  - rewrite split_lower, forallb_forall, Forall_forall; split.
    + intros H; split; [discriminate|]; intros w Hw.
      apply contains_iff, H, in_map, Hw.
    + intros [_ H] w Hw; apply in_map_iff in Hw as [w0 [<- Hw0]].
      apply contains_iff, H, Hw0.
Qed.

(** ** C5: the identifier loop *)

Section Identifiers.

Variable prefix : string.

Lemma LastWith_nil : LastWith prefix [] EmptyString.
Proof. left; split; [reflexivity | intros i []]. Qed.

Lemma LastWith_hit (ids : list string) (x y : string) :
  PyStr.startswith y prefix = true -> LastWith prefix (ids ++ [y]) y.
Proof.
  intros Hy; right; exists ids, []; repeat split; [exact Hy | intros i []].
Qed.

Lemma LastWith_miss (ids : list string) (x y : string) :
  PyStr.startswith y prefix = false ->
  LastWith prefix ids x -> LastWith prefix (ids ++ [y]) x.
Proof.
  intros Hy [[-> Hall] | [pre [post [-> [Hx Hpost]]]]].
  - left; split; [reflexivity|]; intros i Hi.
    apply in_app_or in Hi as [Hi | [<- | []]]; auto.
  - right; exists pre, (post ++ [y]); repeat split.
    + now rewrite <- app_assoc.
    + exact Hx.
    + intros i Hi; apply in_app_or in Hi as [Hi | [<- | []]]; auto.
Qed.

End Identifiers.

Lemma scan_identifiers_snoc (ids : list string) (i : string) :
  scan_identifiers (ids ++ [i]) = scan_step (scan_identifiers ids) i.
Proof. unfold scan_identifiers; now rewrite fold_left_app. Qed.

Lemma scan_identifiers_last (ids : list string) :
  LastWith "PMC" ids (fst (scan_identifiers ids))
  /\ LastWith "10." ids (snd (scan_identifiers ids)).
Proof.
  induction ids as [|i ids [IHp IHd]] using rev_ind.
  - split; apply LastWith_nil.
  - rewrite scan_identifiers_snoc; unfold scan_step; cbn [fst snd]; split.
    + destruct (PyStr.startswith i "PMC") eqn:E.
      * now apply LastWith_hit.
      * now apply LastWith_miss.
    + destruct (PyStr.startswith i "10.") eqn:E.
      * now apply LastWith_hit.
      * now apply LastWith_miss.
Qed.

(** C5. The pmcid of a record is the last of its identifiers that starts
    with "PMC" and its doi the last that starts with "10.", each empty when
    no identifier has the prefix; the identifiers of the example give
    "PMC7654321" and "10.1000/xyz". *)
Theorem identifiers_last_match_wins :
  (forall ids : list string,
      LastWith "PMC" ids (fst (scan_identifiers ids))
      /\ LastWith "10." ids (snd (scan_identifiers ids)))
  /\ (forall dcel : Element,
         LastWith "PMC" (texts (dc "identifier") dcel)
           (PMCID (make_record dcel))
         /\ LastWith "10." (texts (dc "identifier") dcel)
              (DOI (make_record dcel)))
  /\ scan_identifiers ["PMC1234567"; "10.1000/xyz"; "PMC7654321"]
     = ("PMC7654321", "10.1000/xyz").
Proof.
  split; [exact scan_identifiers_last|]; split; [|reflexivity].
  intros dcel; exact (scan_identifiers_last (texts (dc "identifier") dcel)).
Qed.

(** ** C6 and C10: the year *)

Section YearFacts.

Local Open Scope string_scope.

Lemma four_digits_inv (g : string) :
  four_digits g ->
  exists a b c d,
    g = String a (String b (String c (String d EmptyString)))
    /\ PyStr.isdecimal a = true /\ PyStr.isdecimal b = true
    /\ PyStr.isdecimal c = true /\ PyStr.isdecimal d = true.
Proof.
  intros [Hlen Hdig].
  destruct g as [|a [|b [|c [|d [|e g]]]]]; try discriminate Hlen.
  simpl in Hdig; rewrite !andb_true_iff in Hdig.
  exists a, b, c, d; intuition.
Qed.

Lemma match_d4_iff (s g : string) :
  PyStr.match_d4 s = Some g <-> four_digits g /\ exists post, s = g ++ post.
Proof.
  split.
  - unfold PyStr.match_d4.
    destruct s as [|a [|b [|c [|d rest]]]]; try discriminate.
    destruct (PyStr.isdecimal a) eqn:Ea; [|discriminate].
    destruct (PyStr.isdecimal b) eqn:Eb; [|discriminate].
    destruct (PyStr.isdecimal c) eqn:Ec; [|discriminate].
    destruct (PyStr.isdecimal d) eqn:Ed; [|discriminate].
    simpl; intros H; inversion H; subst g; split.
    + split; [reflexivity | simpl; now rewrite Ea, Eb, Ec, Ed].
    + exists rest; reflexivity.
  - intros [Hg [post ->]].
    apply four_digits_inv in Hg as (a & b & c & d & -> & Ha & Hb & Hc & Hd).
    simpl; now rewrite Ha, Hb, Hc, Hd.
Qed.

Lemma search_d4_some (s g : string) :
  PyStr.search_d4 s = Some g -> FirstD4 s g.
Proof.
  revert g; induction s as [|c s IH]; intros g.
  - simpl; discriminate.
  - cbn [PyStr.search_d4].
    destruct (PyStr.match_d4 (String c s)) as [g0|] eqn:E.
    + intros H; inversion H; subst g0.
      apply match_d4_iff in E as [Hg [post Hs]].
      exists EmptyString, post; repeat split; try apply Hg.
      * exact Hs.
      * intros; simpl; lia.
    + intros H; apply IH in H as (pre & post & Hs & Hg & Hleft).
      exists (String c pre), post; repeat split; try apply Hg.
      * simpl; now rewrite Hs.
      * intros pre' g' post' Hs' Hg'.
        destruct pre' as [|c' pre'].
        -- assert (PyStr.match_d4 (String c s) = Some g') as E'
             by (apply match_d4_iff; split; [exact Hg' | now exists post']).
           congruence.
        -- simpl in Hs'; inversion Hs'; subst c'.
           simpl; apply le_n_S, (Hleft pre' g' post'); assumption.
Qed.

Lemma search_d4_none (s : string) :
  PyStr.search_d4 s = None -> NoD4 s.
Proof.
  induction s as [|c s IH]; intros H pre g post Hs Hg.
  - apply four_digits_inv in Hg as (a & b & c & d & -> & _).
    destruct pre; discriminate Hs.
  - cbn [PyStr.search_d4] in H.
    destruct (PyStr.match_d4 (String c s)) as [g0|] eqn:E; [discriminate|].
    destruct pre as [|c' pre].
    + assert (PyStr.match_d4 (String c s) = Some g) as E'
        by (apply match_d4_iff; split; [exact Hg | now exists post]).
      congruence.
    + simpl in Hs; inversion Hs; subst.
      exact (IH H pre g post eq_refl Hg).
Qed.

Lemma extract_year_shape (dates : list string) :
  extract_year dates = EmptyString \/ four_digits (extract_year dates).
Proof.
  destruct dates as [|d0 dates]; simpl; [now left|].
  destruct (PyStr.search_d4 d0) as [g|] eqn:E; [right | now left].
  apply search_d4_some in E as (pre & post & _ & Hg & _); exact Hg.
Qed.

End YearFacts.

(** C6. The year of a record is the leftmost run of four digits in the
    first non-empty date text; it is empty when the record has no such
    text or that text has no four digits in a row. The date "circa late
    2005 reprint" gives "2005" and "unknown" gives no year. *)
Theorem extract_year_first_d4 :
  (forall dates : list string,
      match dates with
      | [] => extract_year dates = EmptyString
      | d0 :: _ =>
          FirstD4 d0 (extract_year dates)
          \/ (NoD4 d0 /\ extract_year dates = EmptyString)
      end)
  /\ (forall dcel : Element,
         Year (make_record dcel) = extract_year (texts (dc "date") dcel))
  /\ extract_year ["circa late 2005 reprint"] = "2005"
  /\ extract_year ["unknown"] = EmptyString.
Proof.
  repeat split.
  intros [|d0 dates]; simpl; [reflexivity|].
  destruct (PyStr.search_d4 d0) as [g|] eqn:E.
  - left; now apply search_d4_some.
  - right; split; [now apply search_d4_none | reflexivity].
Qed.

(** ** The record loop *)

Lemma geb_false (n m : Z) : (n >=? m)%Z = false -> (n < m)%Z.
Proof. rewrite Z.geb_leb; apply Z.leb_gt. Qed.

Lemma process_records_app (N : Z) (pre post : list Element)
    (acc : list RawRecord) :
  process_records N (pre ++ post) acc
  = and_then (process_records N pre acc) (process_records N post).
Proof.
  revert acc; induction pre as [|rec pre IH]; intros acc; simpl.
  - reflexivity.
  - destruct (flat_metadata rec) as [dcel|]; [|apply IH].
    destruct (_ >=? N)%Z; [reflexivity | apply IH].
Qed.

Lemma process_records_skip (N : Z) (rec : Element) (rest : list Element)
    (acc : list RawRecord) :
  flat_metadata rec = None ->
  process_records N (rec :: rest) acc = process_records N rest acc.
Proof. intros H; simpl; now rewrite H. Qed.

(** Every record the loop adds is built by [make_record]. *)
Lemma process_records_Forall (P : RawRecord -> Prop) (N : Z) :
  (forall dcel, P (make_record dcel)) ->
  forall recs acc,
    Forall P acc -> Forall P (flow_records (process_records N recs acc)).
Proof.
  intros HP recs; induction recs as [|rec recs IH]; intros acc Hacc; simpl.
  - exact Hacc.
  - destruct (flat_metadata rec) as [dcel|]; [|now apply IH].
    assert (Forall P (acc ++ [make_record dcel])) as Hacc'
      by (apply Forall_app; split; [exact Hacc | constructor; auto]).
    destruct (_ >=? N)%Z; [exact Hacc' | now apply IH].
Qed.

Lemma process_records_grows (N : Z) (recs : list Element) :
  forall acc acc',
    process_records N recs acc = Continue acc' ->
    (List.length acc <= List.length acc')%nat.
Proof.
  induction recs as [|rec recs IH]; intros acc acc'; simpl.
  - intros H; inversion H; lia.
  - destruct (flat_metadata rec) as [dcel|]; [|apply IH].
    destruct (_ >=? N)%Z; [discriminate|].
    intros H; apply IH in H; rewrite length_app in H; simpl in H; lia.
Qed.

(** When the batch is run through, nothing was added or the budget is
    not used up. *)
Lemma process_records_below (N : Z) (recs : list Element) :
  forall acc acc',
    process_records N recs acc = Continue acc' ->
    acc' = acc \/ (Z.of_nat (List.length acc') < N)%Z.
Proof.
  induction recs as [|rec recs IH]; intros acc acc'; simpl.
  - intros H; inversion H; now left.
  - destruct (flat_metadata rec) as [dcel|]; [|apply IH].
    destruct (_ >=? N)%Z eqn:E; [discriminate|].
    intros H; right; destruct (IH _ _ H) as [-> | Hlt]; [|exact Hlt].
    apply geb_false in E; exact E.
Qed.

Lemma process_records_progress (N : Z) (recs : list Element) :
  forall acc acc',
    process_records N recs acc = Continue acc' ->
    (exists rec dcel, In rec recs /\ flat_metadata rec = Some dcel) ->
    (List.length acc < List.length acc')%nat
    /\ (Z.of_nat (List.length acc') < N)%Z.
Proof.
  induction recs as [|rec recs IH]; intros acc acc' H (r & d & Hin & Hr).
  - destruct Hin.
  - simpl in H; destruct (flat_metadata rec) as [dcel|] eqn:Erec.
    + destruct (_ >=? N)%Z eqn:E; [discriminate|].
      apply geb_false in E.
      pose proof (process_records_grows _ _ _ _ H) as Hgrow.
      rewrite length_app in Hgrow; simpl in Hgrow; split; [lia|].
      destruct (process_records_below _ _ _ _ H) as [-> | Hlt]; assumption.
    + destruct Hin as [<- | Hin]; [congruence|].
      apply (IH _ _ H); now exists r, d.
Qed.

(** A return from inside the loop happens with the budget reached, and
    with the budget just reached when it was not used up before. *)
Lemma process_records_return (N : Z) (recs : list Element) :
  forall acc out,
    process_records N recs acc = Return out ->
    (N <= Z.of_nat (List.length out))%Z
    /\ ((Z.of_nat (List.length acc) < N)%Z ->
        Z.of_nat (List.length out) = N).
Proof.
  induction recs as [|rec recs IH]; intros acc out; simpl.
  - discriminate.
  - destruct (flat_metadata rec) as [dcel|]; [|apply IH].
    destruct (_ >=? N)%Z eqn:E.
    + intros H; inversion H; subst out; apply Z.geb_le in E.
      rewrite length_app in *; simpl in *; lia.
    + intros H; apply geb_false in E.
      destruct (IH _ _ H) as [H1 H2]; split; [exact H1|].
      intros _; apply H2; exact E.
Qed.

(** ** The request loop *)

Lemma harvest_loop_step (fuel : nat) (endpoint : Endpoint) (N : Z)
    (params : Params) (acc : list RawRecord) (log : list Params) :
  harvest_loop (S fuel) endpoint N params acc log
  = match endpoint (List.length log) params with
    | Fails e => Some (Raised e, log ++ [params])
    | Parsed root =>
        match process_records N (findall_desc (oai "record") root) acc with
        | Return records => Some (Returned records, log ++ [params])
        | Continue records =>
            match next_token root with
            | None => Some (Returned records, log ++ [params])
            | Some token =>
                harvest_loop fuel endpoint N (resume_params token) records
                  (log ++ [params])
            end
        end
    end.
Proof. reflexivity. Qed.

(** The cases of one pass through the loop body. *)
Ltac loop_cases endpoint log params N acc :=
  rewrite harvest_loop_step;
  let Eresp := fresh "Eresp" in
  let Eflow := fresh "Eflow" in
  let Etok := fresh "Etok" in
  destruct (endpoint (List.length log) params) as [err|root] eqn:Eresp;
  [|destruct (process_records N (findall_desc (oai "record") root) acc)
      as [acc1|acc1] eqn:Eflow;
    [destruct (next_token root) as [token|] eqn:Etok|]].

Lemma harvest_loop_Forall (P : RawRecord -> Prop) (endpoint : Endpoint)
    (N : Z) :
  (forall dcel, P (make_record dcel)) ->
  forall fuel params acc log recs log',
    Forall P acc ->
    harvest_loop fuel endpoint N params acc log = Some (Returned recs, log') ->
    Forall P recs.
Proof.
  intros HP fuel; induction fuel as [|fuel IH];
    intros params acc log recs log' Hacc; [discriminate|].
  pose proof (process_records_Forall P N HP) as Hflow.
  loop_cases endpoint log params N acc; intros H.
  - discriminate.
  - specialize (Hflow (findall_desc (oai "record") root) _ Hacc).
    rewrite Eflow in Hflow; exact (IH _ _ _ _ _ Hflow H).
  - specialize (Hflow (findall_desc (oai "record") root) _ Hacc).
    rewrite Eflow in Hflow; now inversion H; subst.
  - specialize (Hflow (findall_desc (oai "record") root) _ Hacc).
    rewrite Eflow in Hflow; now inversion H; subst.
Qed.

(** More fuel does not change a result. *)
Lemma harvest_loop_mono (endpoint : Endpoint) (N : Z) :
  forall fuel fuel' params acc log res,
    (fuel <= fuel')%nat ->
    harvest_loop fuel endpoint N params acc log = Some res ->
    harvest_loop fuel' endpoint N params acc log = Some res.
Proof.
  intros fuel; induction fuel as [|fuel IH];
    intros fuel' params acc log res Hle; [discriminate|].
  destruct fuel' as [|fuel']; [lia|].
  rewrite !harvest_loop_step.
  destruct (endpoint _ _); [auto|].
  destruct (process_records _ _ _); [|auto].
  destruct (next_token _); [|auto].
  apply IH; lia.
Qed.

Lemma harvest_loop_bound (endpoint : Endpoint) (N : Z) :
  forall fuel params acc log recs log',
    (Z.of_nat (List.length acc) < N)%Z ->
    harvest_loop fuel endpoint N params acc log = Some (Returned recs, log') ->
    (Z.of_nat (List.length recs) <= N)%Z.
Proof.
  intros fuel; induction fuel as [|fuel IH];
    intros params acc log recs log' Hacc; [discriminate|].
  loop_cases endpoint log params N acc; intros H.
  - discriminate.
  - apply (IH _ _ _ _ _ ) in H; [exact H|].
    destruct (process_records_below _ _ _ _ Eflow) as [-> | Hlt]; assumption.
  - inversion H; subst.
    destruct (process_records_below _ _ _ _ Eflow) as [-> | Hlt]; lia.
  - inversion H; subst.
    destruct (process_records_return _ _ _ _ Eflow) as [_ Heq].
    rewrite (Heq Hacc); lia.
Qed.

(** ** C7: record elements without metadata *)

(** C7. A record element without a metadata child, or whose metadata child
    has no flat-metadata child, adds nothing: the batch is processed as if
    the element were not in it, so the records before and after it are
    handled as they would be without it. *)
Theorem skipped_record_contributes_nothing (N : Z) (pre post : list Element)
    (rec : Element) (acc : list RawRecord) :
  find (oai "metadata") rec = None
  \/ (exists meta, find (oai "metadata") rec = Some meta
                   /\ find (dc "dc") meta = None) ->
  process_records N (pre ++ rec :: post) acc
  = process_records N (pre ++ post) acc.
Proof.
  intros H.
  assert (flat_metadata rec = None) as Hskip.
  { unfold flat_metadata; destruct H as [-> | [meta [-> Hdc]]];
      [reflexivity | exact Hdc]. }
  rewrite !process_records_app; destruct (process_records N pre acc);
    simpl; [|reflexivity].
  now rewrite Hskip.
Qed.

Lemma skipped_record_contributes_nothing_witness :
  (find (oai "metadata") rec_deleted = None
   /\ process_records 100 ([rec_a] ++ rec_deleted :: [rec_b]) []
      = process_records 100 ([rec_a] ++ [rec_b]) [])
  /\ ((exists meta, find (oai "metadata") rec_no_dc = Some meta
                    /\ find (dc "dc") meta = None)
      /\ process_records 100 ([rec_a] ++ rec_no_dc :: [rec_b]) []
         = process_records 100 ([rec_a] ++ [rec_b]) []).
Proof.
  split; split.
  - reflexivity.
  - apply skipped_record_contributes_nothing; left; reflexivity.
  - eexists; split; reflexivity.
  - apply skipped_record_contributes_nothing; right.
    eexists; split; reflexivity.
Defined.

(** ** C2: the record budget *)

(** C2. For a maximum [N] between 10 and 1000 the returned list has at
    most [N] records; the append that makes the list [N] long is followed
    by the return, whatever record elements come after it in the batch,
    and a return from inside a batch ends the session with the request of
    that batch as the last one sent. *)
Theorem harvest_budget (N : Z) (HN : (10 <= N <= 1000)%Z) :
  (forall fuel endpoint recs log,
      fetch_pmc_oai_records fuel endpoint N = Some (Returned recs, log) ->
      (Z.of_nat (List.length recs) <= N)%Z)
  /\ (forall pre rec dcel post acc acc',
         process_records N pre acc = Continue acc' ->
         flat_metadata rec = Some dcel ->
         (Z.of_nat (List.length acc') + 1 = N)%Z ->
         process_records N (pre ++ rec :: post) acc
         = Return (acc' ++ [make_record dcel]))
  /\ (forall fuel endpoint params acc log root recs,
         endpoint (List.length log) params = Parsed root ->
         process_records N (findall_desc (oai "record") root) acc
         = Return recs ->
         harvest_loop (S fuel) endpoint N params acc log
         = Some (Returned recs, log ++ [params])).
Proof.
  repeat split.
  - intros fuel endpoint recs log H.
    apply (harvest_loop_bound endpoint N _ _ _ _ _ _) in H; [exact H|].
    simpl; lia.
  - intros pre rec dcel post acc acc' Hpre Hrec Hlen.
    rewrite process_records_app, Hpre; simpl; rewrite Hrec.
    destruct (_ >=? N)%Z eqn:E; [reflexivity|].
    apply geb_false in E; rewrite length_app in E; simpl in E; lia.
  - intros fuel endpoint params acc log root recs Hresp Hflow.
    now rewrite harvest_loop_step, Hresp, Hflow.
Qed.

Lemma harvest_budget_witness :
  (10 <= 10 <= 1000)%Z
  /\ fetch_pmc_oai_records 1 twelve 10
     = Some (Returned (repeat (make_record (dc_el fields_c)) 10),
             [initial_params])
  /\ (Z.of_nat (List.length (repeat (make_record (dc_el fields_c)) 10))
      <= 10)%Z
  /\ process_records 10 (repeat rec_c 9 ++ rec_c :: [rec_a; rec_b]) []
     = Return (repeat (make_record (dc_el fields_c)) 9
               ++ [make_record (dc_el fields_c)])
  /\ harvest_loop 1 twelve 10 initial_params [] []
     = Some (Returned (repeat (make_record (dc_el fields_c)) 10),
             [] ++ [initial_params]).
Proof.
  assert (10 <= 10 <= 1000)%Z as HN by lia.
  destruct (harvest_budget 10 HN) as (Hlen & Hbatch & Hsession).
  split; [exact HN|].
  assert (fetch_pmc_oai_records 1 twelve 10
     = Some (Returned (repeat (make_record (dc_el fields_c)) 10),
             [initial_params])) as Hrun by reflexivity.
  split; [exact Hrun|].
  split; [exact (Hlen 1%nat twelve _ _ Hrun)|].
  split.
  - apply (Hbatch (repeat rec_c 9) rec_c (dc_el fields_c) [rec_a; rec_b] []
             (repeat (make_record (dc_el fields_c)) 9));
      reflexivity.
  - apply (Hsession 0%nat twelve initial_params [] []
             (page (repeat rec_c 12 ++ [token_el (Some "more")])));
      reflexivity.
Defined.

(** ** C9: failed requests *)

(** The log only grows, by at least the request of the first pass. *)
Lemma harvest_loop_log (endpoint : Endpoint) (N : Z) :
  forall fuel params acc log out log',
    harvest_loop fuel endpoint N params acc log = Some (out, log') ->
    exists tail, log' = log ++ params :: tail.
Proof.
  intros fuel; induction fuel as [|fuel IH];
    intros params acc log out log'; [discriminate|].
  loop_cases endpoint log params N acc; intros H;
    try (inversion H; subst; exists []; reflexivity).
  apply IH in H as [tail ->]; rewrite <- app_assoc; simpl.
  now exists (resume_params token :: tail).
Qed.

(** When every request before the current one was answered with a
    document, a failed request of the session is the last one sent and
    its error is the outcome. *)
Lemma harvest_loop_failure (endpoint : Endpoint) (N : Z) :
  forall fuel params acc log out log',
    (forall i p, nth_error log i = Some p ->
                 exists root, endpoint i p = Parsed root) ->
    harvest_loop fuel endpoint N params acc log = Some (out, log') ->
    forall i p e,
      nth_error log' i = Some p -> endpoint i p = Fails e ->
      out = Raised e /\ S i = List.length log'.
Proof.
  intros fuel; induction fuel as [|fuel IH];
    intros params acc log out log' Hlog; [discriminate|].
  assert (forall root, endpoint (List.length log) params = Parsed root ->
            forall i p, nth_error (log ++ [params]) i = Some p ->
                        exists root', endpoint i p = Parsed root') as Hnext.
  { intros root Hroot i p Hi.
    destruct (Nat.lt_ge_cases i (List.length log)) as [Hlt | Hge].
    - rewrite nth_error_app1 in Hi by exact Hlt; eauto.
    - rewrite nth_error_app2 in Hi by exact Hge.
      destruct (i - List.length log)%nat as [|k] eqn:Ek; simpl in Hi.
      + inversion Hi; subst p.
        assert (i = List.length log) as -> by lia; eauto.
      + destruct k; discriminate. }
  assert (forall i p e,
            nth_error (log ++ [params]) i = Some p -> endpoint i p = Fails e ->
            i = List.length log /\ p = params) as Hlast.
  { intros i p e Hi Hf.
    destruct (Nat.lt_ge_cases i (List.length log)) as [Hlt | Hge].
    - rewrite nth_error_app1 in Hi by exact Hlt.
      destruct (Hlog _ _ Hi) as [root Hroot]; congruence.
    - rewrite nth_error_app2 in Hi by exact Hge.
      destruct (i - List.length log)%nat as [|k] eqn:Ek; simpl in Hi.
      + inversion Hi; split; [lia | reflexivity].
      + destruct k; discriminate. }
  loop_cases endpoint log params N acc; intros H i p e Hi Hf.
  - inversion H; subst out log'.
    destruct (Hlast _ _ _ Hi Hf) as [-> ->].
    rewrite length_app; simpl; split; [congruence | lia].
  - exact (IH _ _ _ _ _ (Hnext root eq_refl) H i p e Hi Hf).
  - inversion H; subst out log'.
    destruct (Hlast _ _ _ Hi Hf) as [-> ->]; congruence.
  - inversion H; subst out log'.
    destruct (Hlast _ _ _ Hi Hf) as [-> ->]; congruence.
Qed.

(** The loop is left by the request number [i] at the latest when the
    endpoint fails that request. *)
Lemma harvest_loop_fails_by (endpoint : Endpoint) (N : Z) (i : nat) :
  (forall p, exists e, endpoint i p = Fails e) ->
  forall fuel params acc log,
    (List.length log + fuel = S i)%nat -> (1 <= fuel)%nat ->
    exists out log',
      harvest_loop fuel endpoint N params acc log = Some (out, log')
      /\ (List.length log' <= S i)%nat.
Proof.
  intros Hfail fuel; induction fuel as [|fuel IH];
    intros params acc log Hlen Hfuel; [lia|].
  loop_cases endpoint log params N acc;
    try (eexists; eexists; split; [reflexivity|];
         rewrite length_app; simpl; lia).
  destruct fuel as [|fuel].
  - assert (List.length log = i) as Hi by lia.
    rewrite Hi in Eresp; destruct (Hfail params) as [e He]; congruence.
  - apply IH; [rewrite length_app; simpl; lia | lia].
Qed.

(** C9. A request that fails (no connection, timeout, error status or a
    body that is not XML) ends the session with that error: the records
    gathered from earlier pages are not returned, the failed request is
    the last one sent, and a session whose request number [i] is bound to
    fail ends within [i + 1] requests. *)
Theorem failure_aborts_harvest (endpoint : Endpoint) (N : Z) :
  (forall fuel params acc log e,
      endpoint (List.length log) params = Fails e ->
      harvest_loop (S fuel) endpoint N params acc log
      = Some (Raised e, log ++ [params]))
  /\ (forall fuel out log i p e,
         fetch_pmc_oai_records fuel endpoint N = Some (out, log) ->
         nth_error log i = Some p -> endpoint i p = Fails e ->
         out = Raised e /\ S i = List.length log)
  /\ (forall i,
         (forall p, exists e, endpoint i p = Fails e) ->
         exists out log,
           fetch_pmc_oai_records (S i) endpoint N = Some (out, log)
           /\ (List.length log <= S i)%nat).
Proof.
  repeat split.
  - intros fuel params acc log e Hf; now rewrite harvest_loop_step, Hf.
  - eapply (harvest_loop_failure endpoint N fuel initial_params [] []); eauto.
    intros j q Hj; destruct j; discriminate.
  - eapply (harvest_loop_failure endpoint N fuel initial_params [] []); eauto.
    intros j q Hj; destruct j; discriminate.
  - intros i Hfail.
    apply (harvest_loop_fails_by endpoint N i Hfail); simpl; lia.
Qed.

Lemma failure_aborts_harvest_witness :
  exists out log,
    fetch_pmc_oai_records 5 second_fails 10 = Some (out, log)
    /\ nth_error log 1 = Some (resume_params "abc")
    /\ second_fails 1 (resume_params "abc") = Fails HTTPError
    /\ out = Raised HTTPError /\ 2%nat = List.length log.
Proof.
  eexists; eexists; split; [reflexivity|].
  split; [reflexivity|]; split; [reflexivity|].
  apply (proj1 (proj2 (failure_aborts_harvest second_fails 10))
           5%nat _ _ 1%nat (resume_params "abc") HTTPError); reflexivity.
Defined.

(** ** C1: termination of the request loop *)

(** How a session that returns records was left: the last request sent
    was answered with a document, and that document has no usable token or
    the budget is reached. *)
Lemma harvest_loop_exit (endpoint : Endpoint) (N : Z) :
  forall fuel params acc log recs log',
    harvest_loop fuel endpoint N params acc log = Some (Returned recs, log') ->
    exists log0 p root,
      log' = log0 ++ [p]
      /\ endpoint (List.length log0) p = Parsed root
      /\ (next_token root = None \/ (N <= Z.of_nat (List.length recs))%Z).
Proof.
  intros fuel; induction fuel as [|fuel IH];
    intros params acc log recs log'; [discriminate|].
  loop_cases endpoint log params N acc; intros H.
  - discriminate.
  - exact (IH _ _ _ _ _ H).
  - inversion H; subst; exists log, params, root; auto.
  - inversion H; subst; exists log, params, root; repeat split; auto.
    right; exact (proj1 (process_records_return _ _ _ _ Eflow)).
Qed.

Lemma harvest_loop_terminates (endpoint : Endpoint) (N : Z) :
  token_pages_add_records endpoint ->
  forall fuel params acc log,
    (1 <= fuel)%nat ->
    (N - Z.of_nat (List.length acc) <= Z.of_nat fuel)%Z ->
    exists out log',
      harvest_loop fuel endpoint N params acc log = Some (out, log')
      /\ (List.length log' <= List.length log + fuel)%nat.
Proof.
  intros Hprog fuel; induction fuel as [|fuel IH];
    intros params acc log Hfuel Hbudget; [lia|].
  loop_cases endpoint log params N acc;
    try (eexists; eexists; split; [reflexivity|];
         rewrite length_app; simpl; lia).
  assert (next_token root <> None) as Htok by congruence.
  destruct (process_records_progress _ _ _ _ Eflow
              (Hprog _ _ _ Eresp Htok)) as [Hgrow Hbelow].
  destruct (IH (resume_params token) acc1 (log ++ [params]))
    as (out & log' & Hrun & Hlen); [lia | lia |].
  exists out, log'; split; [exact Hrun|].
  rewrite length_app in Hlen; simpl in Hlen; lia.
Qed.

(** C1, as the code has it. The loop has no bound on the number of
    requests of its own: it is left when a request fails, when a document
    has no token with text, or when the budget is reached. When every
    document with a token adds at least one record, the session ends
    within max(N, 1) requests. *)
Theorem harvest_terminates_when_pages_add_records (endpoint : Endpoint)
    (N : Z) :
  token_pages_add_records endpoint ->
  exists out log,
    fetch_pmc_oai_records (Z.to_nat (Z.max 1 N)) endpoint N = Some (out, log)
    /\ (List.length log <= Z.to_nat (Z.max 1 N))%nat
    /\ forall recs,
         out = Returned recs ->
         exists log0 p root,
           log = log0 ++ [p]
           /\ endpoint (List.length log0) p = Parsed root
           /\ (next_token root = None
               \/ (N <= Z.of_nat (List.length recs))%Z).
Proof.
  intros Hprog.
  destruct (harvest_loop_terminates endpoint N Hprog
              (Z.to_nat (Z.max 1 N)) initial_params [] [])
    as (out & log & Hrun & Hlen); [lia | simpl; lia |].
  exists out, log; split; [exact Hrun|]; split; [exact Hlen|].
  intros recs ->; exact (harvest_loop_exit _ _ _ _ _ _ _ _ Hrun).
Qed.

Lemma two_pages_add_records : token_pages_add_records two_pages.
Proof.
  intros [|i] p root Hroot Htok; inversion Hroot; subst root.
  - exists rec_a; eexists; split; [left; reflexivity | reflexivity].
  - exists rec_c; eexists; split; [left; reflexivity | reflexivity].
Defined.

Lemma harvest_terminates_when_pages_add_records_witness :
  exists out log,
    fetch_pmc_oai_records (Z.to_nat (Z.max 1 100)) two_pages 100
    = Some (out, log)
    /\ (List.length log <= Z.to_nat (Z.max 1 100))%nat.
Proof.
  destruct (harvest_terminates_when_pages_add_records two_pages 100
              two_pages_add_records) as (out & log & Hrun & Hlen & _).
  exists out, log; split; assumption.
Defined.

Lemma token_only_runs_on (fuel : nat) :
  forall params acc log,
    harvest_loop fuel token_only 10 params acc log = None.
Proof.
  induction fuel as [|fuel IH]; intros params acc log; [reflexivity|].
  rewrite harvest_loop_step; unfold token_only at 1.
  change (findall_desc (oai "record") (page [token_el (Some "abc")]))
    with (@nil Element).
  change (next_token (page [token_el (Some "abc")])) with (Some "abc").
  simpl process_records; cbv iota; apply IH.
Qed.

(** The endpoint [token_only] sends a continuation token with every
    response and no record: no number of passes through the loop ends the
    session with the budget 10. *)
Lemma harvest_never_ends_on_token_only :
  ~ exists fuel res, fetch_pmc_oai_records fuel token_only 10 = Some res.
Proof.
  intros (fuel & res & H); unfold fetch_pmc_oai_records in H.
  rewrite token_only_runs_on in H; discriminate.
Qed.

(** ** C10: the shape of the year *)

Lemma decimal_facts (c : ascii) :
  PyStr.isdecimal c = true ->
  PyStr.int_space c = false
  /\ Ascii.eqb c "-" = false /\ Ascii.eqb c "+" = false
  /\ Ascii.eqb c "_" = false
  /\ (0 <= PyStr.digit_value c <= 9)%Z.
Proof.
  destruct c as [[] [] [] [] [] [] [] []]; intros H; try discriminate H;
    cbv; intuition discriminate.
Qed.

(** [int] reads a string of four digits as a number below 10000. *)
Lemma int_four_digits (g : string) :
  four_digits g -> exists y, PyStr.int g = Some y /\ (0 <= y <= 9999)%Z.
Proof.
  intros Hg.
  apply four_digits_inv in Hg as (a & b & c & d & -> & Ha & Hb & Hc & Hd).
  destruct (decimal_facts a Ha) as (Sa & Ma & Pa & _ & Va).
  destruct (decimal_facts b Hb) as (_ & _ & _ & _ & Vb).
  destruct (decimal_facts c Hc) as (_ & _ & _ & _ & Vc).
  destruct (decimal_facts d Hd) as (_ & _ & _ & _ & Vd).
  unfold PyStr.int; cbn [PyStr.lstrip]; rewrite Sa, Ma, Pa.
  cbn [PyStr.int_unsigned PyStr.int_digits]; rewrite Ha, Hb, Hc, Hd.
  cbn [PyStr.all_space]; eexists; split; [reflexivity | lia].
Qed.

Lemma make_record_year_wf (dcel : Element) : year_wf (make_record dcel).
Proof. unfold year_wf; simpl; apply extract_year_shape. Qed.

Lemma harvested_year_wf (fuel : nat) (endpoint : Endpoint) (N : Z)
    (recs : list RawRecord) (log : list Params) :
  fetch_pmc_oai_records fuel endpoint N = Some (Returned recs, log) ->
  Forall year_wf recs.
Proof.
  apply (harvest_loop_Forall year_wf endpoint N make_record_year_wf);
    constructor.
Qed.

Lemma year_ok_empty (r : RawRecord) (from_year to_year : Z) :
  Year r = EmptyString -> year_ok r from_year to_year = Some true.
Proof. unfold year_ok; now intros ->. Qed.

Lemma year_ok_int (r : RawRecord) (from_year to_year y : Z) :
  Year r <> EmptyString -> PyStr.int (Year r) = Some y ->
  year_ok r from_year to_year
  = Some ((from_year <=? y)%Z && (y <=? to_year)%Z).
Proof.
  unfold year_ok; intros Hne ->.
  destruct (Year r); [now elim Hne | reflexivity].
Qed.

Lemma four_digits_nonempty (g : string) : four_digits g -> g <> EmptyString.
Proof. intros [Hlen _] ->; discriminate Hlen. Qed.

Lemma year_ok_total (r : RawRecord) (from_year to_year : Z) :
  year_wf r -> exists b, year_ok r from_year to_year = Some b.
Proof.
  intros [He | Hg].
  - exists true; now apply year_ok_empty.
  - destruct (int_four_digits _ Hg) as (y & Hy & _).
    eexists; apply (year_ok_int r _ _ y);
      [now apply four_digits_nonempty | exact Hy].
Qed.

(** C10. The Year of a record returned by the harvest is empty or has
    exactly four decimal digits; so [int] succeeds on every Year that is
    not empty, and the year test of the filter does not raise. *)
Theorem harvested_year_is_four_digits (fuel : nat) (endpoint : Endpoint)
    (N : Z) (recs : list RawRecord) (log : list Params) (r : RawRecord) :
  fetch_pmc_oai_records fuel endpoint N = Some (Returned recs, log) ->
  In r recs ->
  (Year r = EmptyString \/ four_digits (Year r))
  /\ (Year r <> EmptyString ->
      exists y, PyStr.int (Year r) = Some y /\ (0 <= y <= 9999)%Z)
  /\ (forall from_year to_year, year_ok r from_year to_year <> None).
Proof.
  intros Hrun Hin.
  pose proof (harvested_year_wf _ _ _ _ _ Hrun) as Hall.
  rewrite Forall_forall in Hall; specialize (Hall r Hin).
  split; [exact Hall|]; split.
  - intros Hne; destruct Hall as [He | Hg]; [contradiction|].
    now apply int_four_digits.
  - intros f t; destruct (year_ok_total r f t Hall) as [b ->]; discriminate.
Qed.

Lemma harvested_year_is_four_digits_witness :
  exists recs log,
    fetch_pmc_oai_records 5 two_pages 100 = Some (Returned recs, log)
    /\ In (make_record (dc_el fields_c)) recs
    /\ (Year (make_record (dc_el fields_c)) = EmptyString
        \/ four_digits (Year (make_record (dc_el fields_c))))
    /\ (Year (make_record (dc_el fields_c)) <> EmptyString ->
        exists y, PyStr.int (Year (make_record (dc_el fields_c))) = Some y
                  /\ (0 <= y <= 9999)%Z)
    /\ (forall from_year to_year,
          year_ok (make_record (dc_el fields_c)) from_year to_year <> None).
Proof.
  eexists; eexists; split; [reflexivity|].
  split; [right; right; left; reflexivity|].
  eapply (harvested_year_is_four_digits 5 two_pages 100 _ _
            (make_record (dc_el fields_c)));
    [reflexivity | right; right; left; reflexivity].
Defined.

(** ** C4: the year predicate *)

(** C4. For a harvested record the year test holds when the Year is
    empty, whatever the range; otherwise the Year reads as a number [y]
    and the test holds exactly when [from_year <= y <= to_year]. *)
Theorem year_predicate (fuel : nat) (endpoint : Endpoint) (N : Z)
    (recs : list RawRecord) (log : list Params) (r : RawRecord)
    (from_year to_year : Z) :
  fetch_pmc_oai_records fuel endpoint N = Some (Returned recs, log) ->
  In r recs ->
  (Year r = EmptyString -> year_ok r from_year to_year = Some true)
  /\ (Year r <> EmptyString ->
      exists y,
        PyStr.int (Year r) = Some y
        /\ (year_ok r from_year to_year = Some true
            <-> (from_year <= y <= to_year)%Z)
        /\ (year_ok r from_year to_year = Some false
            <-> ~ (from_year <= y <= to_year)%Z)).
Proof.
  intros Hrun Hin.
  pose proof (harvested_year_wf _ _ _ _ _ Hrun) as Hall.
  rewrite Forall_forall in Hall; specialize (Hall r Hin).
  split; [apply year_ok_empty|].
  intros Hne; destruct Hall as [He | Hg]; [contradiction|].
  destruct (int_four_digits _ Hg) as (y & Hy & _).
  exists y; split; [exact Hy|].
  rewrite (year_ok_int r _ _ y Hne Hy).
  destruct (from_year <=? y)%Z eqn:E1; destruct (y <=? to_year)%Z eqn:E2;
    simpl; try apply Z.leb_le in E1; try apply Z.leb_le in E2;
    try apply Z.leb_gt in E1; try apply Z.leb_gt in E2;
    split; split; intros H; try discriminate; try reflexivity; try lia;
    exfalso; apply H; lia.
Qed.

Lemma year_predicate_witness :
  exists recs log,
    fetch_pmc_oai_records 5 two_pages 100 = Some (Returned recs, log)
    /\ In (make_record (dc_el fields_c)) recs
    /\ In (make_record (dc_el fields_b)) recs
    /\ year_ok (make_record (dc_el fields_b)) 2000 2025 = Some true
    /\ exists y,
         PyStr.int (Year (make_record (dc_el fields_c))) = Some y
         /\ (year_ok (make_record (dc_el fields_c)) 2000 2025 = Some true
             <-> (2000 <= y <= 2025)%Z)
         /\ (year_ok (make_record (dc_el fields_c)) 2000 2025 = Some false
             <-> ~ (2000 <= y <= 2025)%Z).
Proof.
  eexists; eexists; split; [reflexivity|].
  split; [right; right; left; reflexivity|].
  split; [right; left; reflexivity|].
  split.
  - eapply (proj1 (year_predicate 5 two_pages 100 _ _
                     (make_record (dc_el fields_b)) 2000 2025 eq_refl
                     (or_intror (or_introl eq_refl)))).
    reflexivity.
  - eapply (proj2 (year_predicate 5 two_pages 100 _ _
                     (make_record (dc_el fields_c)) 2000 2025 eq_refl
                     (or_intror (or_intror (or_introl eq_refl))))).
    discriminate.
Defined.

(** ** C8: the filter keeps a subsequence *)

Lemma filter_Subsequence {A : Type} (f : A -> bool) (l : list A) :
  Subsequence (List.filter f l) l.
Proof.
  induction l as [|x l IH]; simpl; [constructor|].
  destruct (f x); constructor; exact IH.
Qed.

Lemma filter_loop_filter (q : string) (f t : Z) (raw : list RawRecord) :
  Forall year_wf raw ->
  forall acc,
    filter_loop raw q f t acc = Some (acc ++ List.filter (passes q f t) raw).
Proof.
  induction 1 as [|r raw Hr Hraw IH]; intros acc; simpl.
  - now rewrite app_nil_r.
  - destruct (year_ok_total r f t Hr) as [b Hb].
    unfold keep, passes; rewrite Hb.
    destruct (text_match (Title r) q); simpl.
    + destruct b; rewrite IH; [now rewrite <- app_assoc | reflexivity].
    + apply IH.
Qed.

(** C8. The filter does not raise on a harvested sequence, and what it
    gives is the harvested sequence with the records left out that fail
    the title test or the year test: a subsequence, in harvest order, that
    holds a record exactly when the record is in the harvest and passes
    both tests. *)
Theorem filter_keeps_subsequence (fuel : nat) (endpoint : Endpoint) (N : Z)
    (raw : list RawRecord) (log : list Params)
    (search_query : string) (from_year to_year : Z) :
  fetch_pmc_oai_records fuel endpoint N = Some (Returned raw, log) ->
  exists filtered,
    filter_records raw search_query from_year to_year = Some filtered
    /\ filtered = List.filter (passes search_query from_year to_year) raw
    /\ Subsequence filtered raw
    /\ forall r,
         In r filtered <->
         In r raw
         /\ text_match (Title r) search_query = true
         /\ year_ok r from_year to_year = Some true.
Proof.
  intros Hrun.
  pose proof (harvested_year_wf _ _ _ _ _ Hrun) as Hall.
  exists (List.filter (passes search_query from_year to_year) raw).
  split; [|split; [reflexivity | split; [apply filter_Subsequence|]]].
  - unfold filter_records; now rewrite filter_loop_filter.
  - intros r; rewrite filter_In; unfold passes; rewrite andb_true_iff.
    split; intros [Hin H]; (split; [exact Hin|]).
    + destruct H as [Ht Hy]; split; [exact Ht|].
      destruct (year_ok r from_year to_year) as [[]|]; congruence.
    + destruct H as [Ht Hy]; now rewrite Ht, Hy.
Qed.

Lemma filter_keeps_subsequence_witness :
  exists raw log filtered,
    fetch_pmc_oai_records 5 two_pages 100 = Some (Returned raw, log)
    /\ filter_records raw "suture" 2000 2025 = Some filtered
    /\ filtered = List.filter (passes "suture" 2000 2025) raw
    /\ Subsequence filtered raw.
Proof.
  eexists; eexists.
  destruct (filter_keeps_subsequence 5 two_pages 100 _ _ "suture" 2000 2025
              eq_refl) as (filtered & Hrun & Heq & Hsub & _).
  exists filtered; repeat split; assumption.
Defined.

(** ** The scenarios of the specification *)

(** Two records and the token "abc", then one record without a token: two
    requests, the second carrying only the token, and three records in
    the order of the pages. *)
Example scenario_two_pages :
  fetch_pmc_oai_records 2 two_pages 100
  = Some (Returned [make_record (dc_el fields_a);
                    make_record (dc_el fields_b);
                    make_record (dc_el fields_c)],
          [initial_params; resume_params "abc"]).
Proof. reflexivity. Qed.

(** With the budget 2 the first two records of the page are returned
    after one request. *)
Example scenario_budget_mid_batch :
  fetch_pmc_oai_records 1 one_page 2
  = Some (Returned [make_record (dc_el fields_a);
                    make_record (dc_el fields_b)],
          [initial_params]).
Proof. reflexivity. Qed.

Example scenario_record_fields :
  make_record (dc_el fields_a)
  = {| Title := "Antibacterial suture coatings";
       Authors := "Doe, J; Roe, R";
       Year := "2005";
       PMCID := "PMC7654321";
       DOI := "10.1000/xyz" |}.
Proof. reflexivity. Qed.

(** The query "suture" with the range 2000 to 2025 keeps the record of
    2005 and drops the one of 1998 and the one whose title has no
    "suture". *)
Example scenario_filter :
  filter_records [make_record (dc_el fields_a);
                  make_record (dc_el fields_b);
                  make_record (dc_el fields_c)] "suture" 2000 2025
  = Some [make_record (dc_el fields_a)].
Proof. reflexivity. Qed.

(** A budget below 1 is met by the first record appended. *)
Example scenario_budget_zero :
  fetch_pmc_oai_records 1 one_page 0
  = Some (Returned [make_record (dc_el fields_a)], [initial_params]).
Proof. reflexivity. Qed.

(** * Further properties of the harvester *)

Lemma process_records_continue_all (N : Z) (recs : list Element) :
  forall acc out,
    process_records N recs acc = Continue out ->
    out = acc ++ flat_map record_of recs.
Proof.
  induction recs as [|rec recs IH]; intros acc out; simpl.
  - intros H; inversion H; now rewrite app_nil_r.
  - unfold record_of at 1; destruct (flat_metadata rec) as [dcel|].
    + destruct (_ >=? N)%Z; [discriminate|].
      intros H; rewrite (IH _ _ H), <- app_assoc; reflexivity.
    + apply IH.
Qed.

Lemma process_records_return_prefix (N : Z) (recs : list Element) :
  forall acc out,
    process_records N recs acc = Return out ->
    Prefix out (acc ++ flat_map record_of recs).
Proof.
  induction recs as [|rec recs IH]; intros acc out; simpl.
  - discriminate.
  - unfold record_of at 1; destruct (flat_metadata rec) as [dcel|].
    + destruct (_ >=? N)%Z.
      * intros H; inversion H; subst out.
        exists (flat_map record_of recs); now rewrite <- app_assoc.
      * intros H; destruct (IH _ _ H) as [rest Hrest].
        exists rest; rewrite <- Hrest, <- app_assoc; reflexivity.
    + apply IH.
Qed.

(** The length of the list at a return from inside a batch. *)
Lemma process_records_return_length (N : Z) (recs : list Element) :
  forall acc out,
    process_records N recs acc = Return out ->
    Z.of_nat (List.length out) = Z.max N (Z.of_nat (List.length acc) + 1).
Proof.
  induction recs as [|rec recs IH]; intros acc out; simpl.
  - discriminate.
  - destruct (flat_metadata rec) as [dcel|]; [|apply IH].
    destruct (_ >=? N)%Z eqn:E.
    + intros H; inversion H; subst out; apply Z.geb_le in E.
      rewrite length_app in *; simpl in *; lia.
    + intros H; apply geb_false in E; rewrite (IH _ _ H).
      rewrite length_app in *; simpl in *; lia.
Qed.

Lemma nth_error_snoc_here {A : Type} (l tail : list A) (x : A) :
  nth_error (l ++ x :: tail) (List.length l) = Some x.
Proof.
  rewrite nth_error_app2 by lia; now rewrite Nat.sub_diag.
Qed.

(** The documents behind a session that returns records, and what the
    records are in terms of them. *)
Lemma harvest_loop_pages (endpoint : Endpoint) (N : Z) :
  forall fuel params acc log recs log',
    harvest_loop fuel endpoint N params acc log = Some (Returned recs, log') ->
    exists roots,
      List.length log' = (List.length log + List.length roots)%nat
      /\ (forall k root,
             nth_error roots k = Some root ->
             exists p, nth_error log' (List.length log + k) = Some p
                       /\ endpoint (List.length log + k)%nat p = Parsed root)
      /\ Prefix recs (acc ++ flat_map page_records roots)
      /\ ((Z.of_nat (List.length recs) < N)%Z ->
          recs = acc ++ flat_map page_records roots
          /\ exists front root,
               roots = front ++ [root] /\ next_token root = None).
Proof.
  intros fuel; induction fuel as [|fuel IH];
    intros params acc log recs log' Hrun; [discriminate|].
  destruct (harvest_loop_log _ _ _ _ _ _ _ _ Hrun) as [tail Htail].
  assert (nth_error log' (List.length log) = Some params) as Hhere
    by (rewrite Htail; apply nth_error_snoc_here).
  revert Hrun; loop_cases endpoint log params N acc; intros H.
  - discriminate.
  - apply process_records_continue_all in Eflow.
    fold (page_records root) in Eflow; subst acc1.
    destruct (IH _ _ _ _ _ H) as (roots & Hlen & Hnth & Hpre & Hall).
    exists (root :: roots); rewrite length_app in *; simpl in *.
    split; [lia|]; split; [|split].
    + intros [|k] r Hr; simpl in Hr.
      * inversion Hr; subst r; exists params.
        rewrite Nat.add_0_r; split; assumption.
      * destruct (Hnth k r Hr) as (p & Hp & Hep).
        replace (List.length log + S k)%nat
          with (List.length log + 1 + k)%nat by lia.
        now exists p.
    + destruct Hpre as [rest Hrest]; exists rest.
      now rewrite app_assoc.
    + intros Hlt; destruct (Hall Hlt) as (Heq & front & last & -> & Htok).
      split; [now rewrite app_assoc|].
      now exists (root :: front), last.
  - inversion H; subst acc1 log'.
    apply process_records_continue_all in Eflow.
    fold (page_records root) in Eflow.
    exists [root]; rewrite length_app; simpl; rewrite app_nil_r.
    split; [reflexivity|]; split; [|split].
    + intros [|[|k]] r Hr; simpl in Hr; try discriminate.
      inversion Hr; subst r; exists params.
      rewrite Nat.add_0_r; split; [apply nth_error_snoc_here | assumption].
    + exists []; now rewrite app_nil_r.
    + intros _; split; [exact Eflow|].
      now exists [], root.
  - inversion H; subst acc1 log'.
    exists [root]; rewrite length_app; simpl; rewrite app_nil_r.
    split; [reflexivity|]; split; [|split].
    + intros [|[|k]] r Hr; simpl in Hr; try discriminate.
      inversion Hr; subst r; exists params.
      rewrite Nat.add_0_r; split; [apply nth_error_snoc_here | assumption].
    + exact (process_records_return_prefix _ _ _ _ Eflow).
    + intros Hlt.
      pose proof (proj1 (process_records_return _ _ _ _ Eflow)); lia.
Qed.

Lemma harvest_pages (fuel : nat) (endpoint : Endpoint) (N : Z)
    (recs : list RawRecord) (log : list Params) :
  fetch_pmc_oai_records fuel endpoint N = Some (Returned recs, log) ->
  exists roots,
    answers endpoint log roots
    /\ Prefix recs (flat_map page_records roots)
    /\ ((Z.of_nat (List.length recs) < N)%Z ->
        recs = flat_map page_records roots
        /\ exists front root,
             roots = front ++ [root] /\ next_token root = None).
Proof.
  intros Hrun.
  destruct (harvest_loop_pages _ _ _ _ _ _ _ _ Hrun)
    as (roots & Hlen & Hnth & Hpre & Hall).
  exists roots; split; [split|split]; auto.
Qed.

(** X1. The records a session returns are a first part of the records of
    the documents received, taken document by document in the order of the
    requests and inside a document in document order: nothing is dropped
    in between, reordered or repeated. *)
Theorem harvest_preserves_order (fuel : nat) (endpoint : Endpoint) (N : Z)
    (recs : list RawRecord) (log : list Params) :
  fetch_pmc_oai_records fuel endpoint N = Some (Returned recs, log) ->
  exists roots,
    answers endpoint log roots
    /\ Prefix recs (flat_map page_records roots).
Proof.
  intros Hrun; destruct (harvest_pages _ _ _ _ _ Hrun) as (roots & H1 & H2 & _).
  now exists roots.
Qed.

Lemma harvest_preserves_order_witness :
  exists roots,
    answers two_pages [initial_params; resume_params "abc"] roots
    /\ Prefix [make_record (dc_el fields_a); make_record (dc_el fields_b);
               make_record (dc_el fields_c)]
         (flat_map page_records roots).
Proof.
  apply (harvest_preserves_order 2 two_pages 100); reflexivity.
Defined.

(** X4. A session that returns fewer than [N] records has followed the
    listing to its end: the last document received has no token with
    text, and the result holds every record of every document received. *)
Theorem short_harvest_is_complete (fuel : nat) (endpoint : Endpoint) (N : Z)
    (recs : list RawRecord) (log : list Params) :
  fetch_pmc_oai_records fuel endpoint N = Some (Returned recs, log) ->
  (Z.of_nat (List.length recs) < N)%Z ->
  exists front root,
    answers endpoint log (front ++ [root])
    /\ next_token root = None
    /\ recs = flat_map page_records (front ++ [root]).
Proof.
  intros Hrun Hlt.
  destruct (harvest_pages _ _ _ _ _ Hrun) as (roots & Hans & _ & Hall).
  destruct (Hall Hlt) as (Heq & front & root & -> & Htok).
  now exists front, root.
Qed.

Lemma short_harvest_is_complete_witness :
  exists front root,
    answers two_pages [initial_params; resume_params "abc"] (front ++ [root])
    /\ next_token root = None
    /\ [make_record (dc_el fields_a); make_record (dc_el fields_b);
        make_record (dc_el fields_c)]
       = flat_map page_records (front ++ [root]).
Proof.
  apply (short_harvest_is_complete 2 two_pages 100);
    [reflexivity | simpl; lia].
Defined.

(** How the requests of a session follow from one another. *)
Lemma harvest_loop_requests (endpoint : Endpoint) (N : Z) :
  forall fuel params acc log out log',
    harvest_loop fuel endpoint N params acc log = Some (out, log') ->
    forall i p,
      (List.length log <= i)%nat ->
      nth_error log' (S i) = Some p ->
      exists q root token,
        nth_error log' i = Some q
        /\ endpoint i q = Parsed root
        /\ next_token root = Some token
        /\ p = resume_params token.
Proof.
  intros fuel; induction fuel as [|fuel IH];
    intros params acc log out log' Hrun; [discriminate|].
  destruct (harvest_loop_log _ _ _ _ _ _ _ _ Hrun) as [tail Htail].
  assert (nth_error log' (List.length log) = Some params) as Hhere
    by (rewrite Htail; apply nth_error_snoc_here).
  assert (forall i p, (List.length log <= i)%nat ->
            nth_error (log ++ [params]) (S i) = Some p -> False) as Hend.
  { intros i p Hi Hp.
    assert (nth_error (log ++ [params]) (S i) <> None) as Hn by congruence.
    apply nth_error_Some in Hn; rewrite length_app in Hn; simpl in Hn; lia. }
  revert Hrun; loop_cases endpoint log params N acc; intros H i p Hi Hp;
    try (injection H as Hout Hlog; rewrite <- Hlog in Hp;
         now elim (Hend i p Hi Hp)).
  destruct (harvest_loop_log _ _ _ _ _ _ _ _ H) as [tail' Htail'].
  destruct (Nat.eq_dec i (List.length log)) as [-> | Hne].
  - exists params, root, token; repeat split; try assumption.
    assert (nth_error log' (S (List.length log))
            = Some (resume_params token)) as Hnext.
    { rewrite Htail'.
      replace (S (List.length log)) with (List.length (log ++ [params]))
        by (rewrite length_app; simpl; lia).
      apply nth_error_snoc_here. }
    congruence.
  - apply (IH _ _ _ _ _ H i p); [|exact Hp].
    rewrite length_app; simpl; lia.
Qed.

(** X2. The first request of a session carries the verb and the metadata
    format; every later one carries the verb and, as the only other
    parameter, the token text of the document that answered the request
    before it. *)
Theorem requests_follow_tokens (fuel : nat) (endpoint : Endpoint) (N : Z)
    (out : Outcome) (log : list Params) :
  fetch_pmc_oai_records fuel endpoint N = Some (out, log) ->
  nth_error log 0 = Some initial_params
  /\ forall i p,
       nth_error log (S i) = Some p ->
       exists q root token,
         nth_error log i = Some q
         /\ endpoint i q = Parsed root
         /\ next_token root = Some token
         /\ p = [("verb", "ListRecords"); ("resumptionToken", token)].
Proof.
  intros Hrun; split.
  - destruct (harvest_loop_log _ _ _ _ _ _ _ _ Hrun) as [tail ->].
    reflexivity.
  - intros i p Hp.
    apply (harvest_loop_requests _ _ _ _ _ _ _ _ Hrun i p); [simpl; lia|].
    exact Hp.
Qed.

Lemma requests_follow_tokens_witness :
  nth_error [initial_params; resume_params "abc"] 0 = Some initial_params
  /\ forall i p,
       nth_error [initial_params; resume_params "abc"] (S i) = Some p ->
       exists q root token,
         nth_error [initial_params; resume_params "abc"] i = Some q
         /\ two_pages i q = Parsed root
         /\ next_token root = Some token
         /\ p = [("verb", "ListRecords"); ("resumptionToken", token)].
Proof.
  apply (requests_follow_tokens 2 two_pages 100
           (Returned [make_record (dc_el fields_a);
                      make_record (dc_el fields_b);
                      make_record (dc_el fields_c)]));
    reflexivity.
Defined.

Lemma harvest_loop_bound_any (endpoint : Endpoint) (N : Z) :
  forall fuel params acc log recs log',
    acc = [] \/ (Z.of_nat (List.length acc) < N)%Z ->
    harvest_loop fuel endpoint N params acc log = Some (Returned recs, log') ->
    (Z.of_nat (List.length recs) <= Z.max 1 N)%Z.
Proof.
  intros fuel; induction fuel as [|fuel IH];
    intros params acc log recs log' Hacc; [discriminate|].
  loop_cases endpoint log params N acc; intros H.
  - discriminate.
  - apply (IH _ _ _ _ _ ) in H; [exact H|].
    destruct (process_records_below _ _ _ _ Eflow) as [-> | Hlt]; auto.
  - inversion H; subst.
    destruct (process_records_below _ _ _ _ Eflow) as [-> | Hlt];
      [destruct Hacc as [-> | Hacc]; simpl|]; lia.
  - inversion H; subst.
    rewrite (process_records_return_length _ _ _ _ Eflow).
    destruct Hacc as [-> | Hacc]; simpl; lia.
Qed.

Lemma process_records_first (N : Z) (recs : list Element) (r : RawRecord)
    (rest : list RawRecord) :
  (N <= 1)%Z ->
  flat_map record_of recs = r :: rest ->
  process_records N recs [] = Return [r].
Proof.
  intros HN; induction recs as [|rec recs IH]; simpl; [discriminate|].
  unfold record_of at 1; destruct (flat_metadata rec) as [dcel|].
  - simpl; intros H; inversion H; subst r.
    destruct (_ >=? N)%Z eqn:E; [reflexivity|].
    apply geb_false in E; lia.
  - exact IH.
Qed.

(** X3. Whatever integer is passed as [max_records], the returned list
    has at most max(N, 1) records: the budget is only tested after an
    append. With a budget of 1 or less, zero or negative, and a first
    document that holds a record, the session ends after one request with
    that first record alone. *)
Theorem budget_below_one (endpoint : Endpoint) (N : Z) :
  (forall fuel recs log,
      fetch_pmc_oai_records fuel endpoint N = Some (Returned recs, log) ->
      (Z.of_nat (List.length recs) <= Z.max 1 N)%Z)
  /\ (forall fuel root r rest,
         (N <= 1)%Z ->
         endpoint 0%nat initial_params = Parsed root ->
         page_records root = r :: rest ->
         fetch_pmc_oai_records (S fuel) endpoint N
         = Some (Returned [r], [initial_params])).
Proof.
  split.
  - intros fuel recs log H.
    apply (harvest_loop_bound_any endpoint N _ _ _ _ _ _) in H; auto.
  - intros fuel root r rest HN Hroot Hpage.
    unfold fetch_pmc_oai_records; rewrite harvest_loop_step; simpl List.length.
    rewrite Hroot, (process_records_first N _ r rest HN Hpage); reflexivity.
Qed.

Lemma budget_below_one_witness :
  (Z.of_nat (List.length [make_record (dc_el fields_a)]) <= Z.max 1 (-5))%Z
  /\ fetch_pmc_oai_records 1 one_page (-5)
     = Some (Returned [make_record (dc_el fields_a)], [initial_params]).
Proof.
  destruct (budget_below_one one_page (-5)) as [Hlen Hone].
  assert (fetch_pmc_oai_records 1 one_page (-5)
          = Some (Returned [make_record (dc_el fields_a)], [initial_params]))
    as Hrun.
  { apply (Hone 0%nat
             (page [rec_a; rec_deleted; rec_b; rec_c; rec_a; rec_b])
             (make_record (dc_el fields_a))
             [make_record (dc_el fields_b); make_record (dc_el fields_c);
              make_record (dc_el fields_a); make_record (dc_el fields_b)]);
      [lia | reflexivity | reflexivity]. }
  split; [exact (Hlen _ _ _ Hrun) | exact Hrun].
Defined.

(** * Further properties of the title test *)

Section TitleTest.

Local Open Scope string_scope.

Lemma all_isspace_lower (s : string) :
  all_isspace (PyStr.lower s) = all_isspace s.
Proof.
  induction s as [|c s IH]; simpl; [reflexivity|].
  now rewrite isspace_lower_char, IH.
Qed.

Lemma split_blank (s : string) :
  all_isspace s = true -> PyStr.split s = [].
Proof.
  unfold PyStr.split; induction s as [|c s IH]; simpl; [reflexivity|].
  intros H; apply andb_true_iff in H as [Hc Hs]; rewrite Hc; exact (IH Hs).
Qed.

(** A white-space character ends the word being read and starts the
    splitting of the rest afresh. *)
Lemma split_from_sep (a b word : string) (c : ascii) :
  PyStr.isspace c = true ->
  PyStr.split_from word (a ++ String c b)
  = (PyStr.split_from word a ++ PyStr.split b)%list.
Proof.
  intros Hc; revert word; induction a as [|x a IH]; intros word; simpl.
  - now rewrite Hc.
  - destruct (PyStr.isspace x); [|apply IH].
    rewrite (IH EmptyString); now rewrite app_assoc.
Qed.

Lemma text_match_unfold (T Q : string) :
  text_match T Q
  = PyStr.truthy T
    && forallb (fun w => PyStr.contains w (PyStr.lower T))
         (PyStr.split (PyStr.lower Q)).
Proof. unfold text_match; destruct (PyStr.truthy T); reflexivity. Qed.

End TitleTest.

(** X6. A query that is empty or made of white space only has no words:
    it matches every title that is not empty and no empty title. *)
Theorem blank_query_matches_titled (T Q : string) :
  all_isspace Q = true -> text_match T Q = PyStr.truthy T.
Proof.
  intros HQ; rewrite text_match_unfold, split_blank.
  - simpl; apply andb_true_r.
  - now rewrite all_isspace_lower.
Qed.

Lemma blank_query_matches_titled_witness :
  text_match "Wound healing" "  " = PyStr.truthy "Wound healing".
Proof. apply blank_query_matches_titled; reflexivity. Defined.

(** X7. Words of a query are joined by "and": a query made of two parts
    with a white-space character between them matches a title exactly
    when each part does. *)
Theorem query_parts_conjoin (T Q1 Q2 : string) (c : ascii) :
  PyStr.isspace c = true ->
  text_match T (Q1 ++ String c Q2)%string
  = text_match T Q1 && text_match T Q2.
Proof.
  intros Hc; rewrite !text_match_unfold, lower_app; simpl PyStr.lower.
  unfold PyStr.split at 1; rewrite split_from_sep
    by (now rewrite isspace_lower_char).
  fold (PyStr.split (PyStr.lower Q1)); rewrite forallb_app.
  destruct (PyStr.truthy T); simpl; [reflexivity|reflexivity].
Qed.

Lemma query_parts_conjoin_witness :
  text_match "Antibacterial suture coatings" ("suture" ++ String " " "anti")
  = text_match "Antibacterial suture coatings" "suture"
    && text_match "Antibacterial suture coatings" "anti".
Proof. apply query_parts_conjoin; reflexivity. Defined.

(** X8. The test looks at the title and at the query only up to case: two
    titles that are equal after lower-casing, and two queries that are,
    give the same answer. *)
Theorem text_match_ignores_case (T T' Q Q' : string) :
  PyStr.lower T = PyStr.lower T' -> PyStr.lower Q = PyStr.lower Q' ->
  text_match T Q = text_match T' Q'.
Proof.
  intros HT HQ; rewrite !text_match_unfold, HT, HQ.
  now rewrite <- (truthy_lower T), <- (truthy_lower T'), HT.
Qed.

Lemma text_match_ignores_case_witness :
  text_match "SUTURE Kit" "Kit" = text_match "suture kit" "KIT".
Proof. apply text_match_ignores_case; reflexivity. Defined.

(** X9. Leaving words out of a query never loses a match: when every word
    of [Q1] is a word of [Q2], a title that matches [Q2] matches [Q1]; so
    the order of the words and their repetition do not matter. *)
Theorem fewer_words_match_more (T Q1 Q2 : string) :
  incl (PyStr.split Q1) (PyStr.split Q2) ->
  text_match T Q2 = true -> text_match T Q1 = true.
Proof.
  intros Hincl; rewrite !text_match_unfold, !andb_true_iff, !split_lower.
  rewrite !forallb_forall; intros [HT H]; split; [exact HT|].
  intros w Hw; apply in_map_iff in Hw as (w0 & <- & Hw0).
  apply H, in_map, Hincl, Hw0.
Qed.

Lemma fewer_words_match_more_witness :
  text_match "Antibacterial suture coatings" "suture suture" = true.
Proof.
  apply (fewer_words_match_more _ "suture suture" "anti suture");
    [|reflexivity].
  intros w [<- | [<- | []]]; right; left; reflexivity.
Defined.

(** * Further properties of the record fields *)

Lemma texts_truthy (t : string) (el : Element) :
  Forall (fun s => PyStr.truthy s = true) (texts t el).
Proof.
  unfold texts; induction (findall t el) as [|e l IH]; simpl; [constructor|].
  apply Forall_app; split; [|exact IH].
  unfold nonempty_text; destruct (text e) as [s|]; [|constructor].
  destruct (PyStr.truthy s) eqn:E; constructor; [exact E | constructor].
Qed.

Lemma join_empty (sep : string) (l : list string) :
  Forall (fun s => PyStr.truthy s = true) l ->
  PyStr.join sep l = EmptyString -> l = [].
Proof.
  intros Hl; destruct Hl as [|x l Hx Hl]; [reflexivity|].
  unfold PyStr.join; simpl; destruct x as [|c x]; [discriminate Hx|].
  destruct l; simpl; discriminate.
Qed.

(** X5. The Title of a record is empty exactly when no title element of
    it has text, and such a record is kept by no query, not even the
    empty one, and in no year range. *)
Theorem untitled_record_never_kept (dcel : Element) :
  (Title (make_record dcel) = EmptyString <-> texts (dc "title") dcel = [])
  /\ (texts (dc "title") dcel = [] ->
      forall search_query from_year to_year,
        keep (make_record dcel) search_query from_year to_year = Some false).
Proof.
  split; [split|].
  - apply join_empty, texts_truthy.
  - simpl; now intros ->.
  - intros H q f t; unfold keep; simpl; now rewrite H.
Qed.

Lemma untitled_record_never_kept_witness :
  keep (make_record (dc_el [Elem (dc "title") None []; date_el "2001"]))
    "" 1990 2025
  = Some false.
Proof.
  apply (proj2 (untitled_record_never_kept
                  (dc_el [Elem (dc "title") None []; date_el "2001"])));
    reflexivity.
Defined.

Lemma LastWith_shape (prefix : string) (ids : list string) (x : string) :
  LastWith prefix ids x ->
  x = EmptyString \/ PyStr.startswith x prefix = true.
Proof. intros [[-> _] | (pre & post & _ & Hx & _)]; auto. Qed.

Lemma make_record_ids_wf (dcel : Element) : ids_wf (make_record dcel).
Proof.
  destruct (scan_identifiers_last (texts (dc "identifier") dcel)) as [Hp Hd].
  apply LastWith_shape in Hp, Hd; unfold ids_wf; simpl.
  split; [exact Hp|]; split; [exact Hd|].
  intros Heq; destruct Hp as [Hp | Hp]; [exact Hp|].
  destruct Hd as [Hd | Hd]; [congruence|].
  rewrite <- Heq in Hd.
  destruct (fst (scan_identifiers (texts (dc "identifier") dcel)))
    as [|a s]; [reflexivity|].
  unfold PyStr.startswith in Hp, Hd; cbn [String.prefix] in Hp, Hd.
  destruct (Ascii.ascii_dec "P" a) as [<-|]; [|discriminate Hp].
  destruct (Ascii.ascii_dec "1" "P") as [E|]; discriminate.
Qed.

(** X12. In every record a session returns, the PMCID is empty or starts
    with "PMC", the DOI is empty or starts with "10.", and the two are
    never the same identifier. *)
Theorem harvested_identifiers_shape (fuel : nat) (endpoint : Endpoint)
    (N : Z) (recs : list RawRecord) (log : list Params) (r : RawRecord) :
  fetch_pmc_oai_records fuel endpoint N = Some (Returned recs, log) ->
  In r recs ->
  (PMCID r = EmptyString \/ PyStr.startswith (PMCID r) "PMC" = true)
  /\ (DOI r = EmptyString \/ PyStr.startswith (DOI r) "10." = true)
  /\ (PMCID r = DOI r -> PMCID r = EmptyString).
Proof.
  intros Hrun Hin.
  assert (Forall ids_wf recs) as Hall.
  { revert Hrun;
      apply (harvest_loop_Forall ids_wf endpoint N make_record_ids_wf);
      constructor. }
  rewrite Forall_forall in Hall; exact (Hall r Hin).
Qed.

Lemma harvested_identifiers_shape_witness :
  (PMCID (make_record (dc_el fields_a)) = EmptyString
   \/ PyStr.startswith (PMCID (make_record (dc_el fields_a))) "PMC" = true)
  /\ (DOI (make_record (dc_el fields_a)) = EmptyString
      \/ PyStr.startswith (DOI (make_record (dc_el fields_a))) "10." = true)
  /\ (PMCID (make_record (dc_el fields_a)) = DOI (make_record (dc_el fields_a))
      -> PMCID (make_record (dc_el fields_a)) = EmptyString).
Proof.
  eapply (harvested_identifiers_shape 2 two_pages 100 _ _
            (make_record (dc_el fields_a)));
    [reflexivity | left; reflexivity].
Defined.

(** X17. A first date text that begins with four digits, as the dates of
    the form YYYY-MM-DD do, gives those four digits as the year, whatever
    follows them and whatever other dates the record has. *)
Theorem leading_year_is_extracted (g rest : string) (dates : list string) :
  four_digits g -> extract_year ((g ++ rest)%string :: dates) = g.
Proof.
  intros Hg.
  apply four_digits_inv in Hg as (a & b & c & d & -> & Ha & Hb & Hc & Hd).
  simpl; now rewrite Ha, Hb, Hc, Hd.
Qed.

Lemma leading_year_is_extracted_witness :
  extract_year (("1998" ++ "-03-01")%string :: ["2005"]) = "1998".
Proof. apply leading_year_is_extracted; split; reflexivity. Defined.

(** * Further properties of the filter and of the handler *)

Lemma Subsequence_length {A : Type} (l1 l2 : list A) :
  Subsequence l1 l2 -> (List.length l1 <= List.length l2)%nat.
Proof. induction 1; simpl; lia. Qed.

Lemma filter_Subsequence_mono {A : Type} (p p' : A -> bool) (l : list A) :
  (forall x, p x = true -> p' x = true) ->
  Subsequence (List.filter p l) (List.filter p' l).
Proof.
  intros Himp; induction l as [|x l IH]; simpl; [constructor|].
  destruct (p x) eqn:E.
  - rewrite (Himp x E); now constructor.
  - destruct (p' x); [now constructor | exact IH].
Qed.

Lemma filter_twice {A : Type} (p : A -> bool) (l : list A) :
  List.filter p (List.filter p l) = List.filter p l.
Proof.
  induction l as [|x l IH]; simpl; [reflexivity|].
  destruct (p x) eqn:E; simpl; [rewrite E; f_equal|]; exact IH.
Qed.

Lemma filter_Forall {A : Type} (P : A -> Prop) (p : A -> bool) (l : list A) :
  Forall P l -> Forall P (List.filter p l).
Proof.
  induction 1 as [|x l Hx Hl IH]; simpl; [constructor|].
  destruct (p x); [constructor|]; assumption.
Qed.

Lemma passes_widen (q : string) (f t f' t' : Z) (r : RawRecord) :
  (f' <= f)%Z -> (t <= t')%Z ->
  passes q f t r = true -> passes q f' t' r = true.
Proof.
  intros Hf Ht; unfold passes, year_ok.
  destruct (text_match (Title r) q); [simpl | discriminate].
  destruct (negb (PyStr.truthy (Year r))); [reflexivity|].
  destruct (PyStr.int (Year r)) as [y|]; [|discriminate].
  rewrite !andb_true_iff, !Z.leb_le; lia.
Qed.

(** X11. Widening the year range never loses a result: for a harvested
    sequence, what the filter keeps for a range is a subsequence of what
    it keeps for any range that contains it. *)
Theorem wider_range_keeps_more (fuel : nat) (endpoint : Endpoint) (N : Z)
    (raw : list RawRecord) (log : list Params) (search_query : string)
    (from_year to_year from_year' to_year' : Z) :
  fetch_pmc_oai_records fuel endpoint N = Some (Returned raw, log) ->
  (from_year' <= from_year)%Z -> (to_year <= to_year')%Z ->
  exists narrow wide,
    filter_records raw search_query from_year to_year = Some narrow
    /\ filter_records raw search_query from_year' to_year' = Some wide
    /\ Subsequence narrow wide.
Proof.
  intros Hrun Hf Ht.
  pose proof (harvested_year_wf _ _ _ _ _ Hrun) as Hall.
  unfold filter_records; rewrite !filter_loop_filter by exact Hall.
  eexists; eexists; split; [reflexivity|]; split; [reflexivity|].
  apply filter_Subsequence_mono; intros r; now apply passes_widen.
Qed.

Lemma wider_range_keeps_more_witness :
  exists narrow wide,
    filter_records [make_record (dc_el fields_a); make_record (dc_el fields_b);
                    make_record (dc_el fields_c)] "suture" 2000 2025
    = Some narrow
    /\ filter_records [make_record (dc_el fields_a);
                       make_record (dc_el fields_b);
                       make_record (dc_el fields_c)] "suture" 1990 2025
       = Some wide
    /\ Subsequence narrow wide.
Proof.
  apply (wider_range_keeps_more 2 two_pages 100 _
           [initial_params; resume_params "abc"]);
    [reflexivity | lia | lia].
Defined.

(** X13. Filtering twice is filtering once: the filter gives back its own
    result unchanged when it is run on it with the same query and
    range. *)
Theorem filter_is_idempotent (fuel : nat) (endpoint : Endpoint) (N : Z)
    (raw filtered : list RawRecord) (log : list Params)
    (search_query : string) (from_year to_year : Z) :
  fetch_pmc_oai_records fuel endpoint N = Some (Returned raw, log) ->
  filter_records raw search_query from_year to_year = Some filtered ->
  filter_records filtered search_query from_year to_year = Some filtered.
Proof.
  intros Hrun.
  pose proof (harvested_year_wf _ _ _ _ _ Hrun) as Hall.
  unfold filter_records; rewrite filter_loop_filter by exact Hall.
  intros H; inversion H; subst filtered.
  rewrite filter_loop_filter by (now apply filter_Forall).
  simpl; now rewrite filter_twice.
Qed.

Lemma filter_is_idempotent_witness :
  filter_records [make_record (dc_el fields_a)] "suture" 2000 2025
  = Some [make_record (dc_el fields_a)].
Proof.
  apply (filter_is_idempotent 2 two_pages 100
           [make_record (dc_el fields_a); make_record (dc_el fields_b);
            make_record (dc_el fields_c)] _
           [initial_params; resume_params "abc"]);
    reflexivity.
Defined.

(** X10. A click never ends in a [ValueError]: the handler fails exactly
    when the harvest does, with the error of the harvest. Otherwise the
    number of rows it reports is the number of records kept, is at most
    max(N, 1), and the table is shown exactly when that number is not
    zero. *)
Theorem on_click_outcome (fuel : nat) (endpoint : Endpoint)
    (search_query : string) (from_year to_year N : Z) (run : Run) :
  on_click fuel endpoint search_query from_year to_year N = Some run ->
  run <> Crash ValueError
  /\ (forall e,
         run = Crash (HarvestError e) <->
         exists log,
           fetch_pmc_oai_records fuel endpoint N = Some (Raised e, log))
  /\ (forall filtered found table url,
         run = Rendered filtered found table url ->
         found = List.length filtered
         /\ (Z.of_nat found <= Z.max 1 N)%Z
         /\ (table = true <-> found <> 0%nat)
         /\ exists raw log,
              fetch_pmc_oai_records fuel endpoint N
              = Some (Returned raw, log)
              /\ Subsequence filtered raw).
Proof.
  unfold on_click.
  destruct (fetch_pmc_oai_records fuel endpoint N) as [[[raw|e] log]|] eqn:Hrun;
    [| |discriminate].
  - pose proof (harvested_year_wf _ _ _ _ _ Hrun) as Hall.
    pose proof (harvest_loop_bound_any endpoint N _ _ _ _ _ _
                  (or_introl eq_refl) Hrun) as Hlen.
    unfold filter_records; rewrite filter_loop_filter by exact Hall; simpl.
    pose proof (filter_Subsequence
                  (passes search_query from_year to_year) raw) as Hsub.
    pose proof (Subsequence_length _ _ Hsub) as Hle.
    intros H; inversion H; subst run; clear H.
    split; [discriminate|]; split.
    + intros e; split; [discriminate | intros [log' H]; discriminate].
    + intros filtered found table url H; inversion H; subst.
      split; [reflexivity|]; split; [lia|]; split.
      * destruct (List.filter _ raw); simpl; split;
          congruence || discriminate.
      * now exists raw, log.
  - intros H; inversion H; subst run; clear H.
    split; [discriminate|]; split.
    + intros e'; split.
      * intros H; inversion H; subst; now exists log.
      * intros [log' H]; inversion H; reflexivity.
    + intros filtered found table url H; discriminate.
Qed.

Lemma on_click_outcome_witness :
  Rendered [make_record (dc_el fields_a)] 1 true
    (pmc_search_url "suture") <> Crash ValueError
  /\ forall filtered found table url,
       Rendered [make_record (dc_el fields_a)] 1 true
         (pmc_search_url "suture")
       = Rendered filtered found table url ->
       found = List.length filtered
       /\ (Z.of_nat found <= Z.max 1 100)%Z
       /\ (table = true <-> found <> 0%nat)
       /\ exists raw log,
            fetch_pmc_oai_records 2 two_pages 100 = Some (Returned raw, log)
            /\ Subsequence filtered raw.
Proof.
  destruct (on_click_outcome 2 two_pages "suture" 2000 2025 100
              (Rendered [make_record (dc_el fields_a)] 1 true
                 (pmc_search_url "suture")) eq_refl) as (H1 & _ & H3).
  split; assumption.
Defined.

(** * Properties of the link *)

Section Link.

Local Open Scope string_scope.

Lemma append_assoc (a b c : string) : (a ++ b) ++ c = a ++ b ++ c.
Proof. induction a as [|x a IH]; simpl; [reflexivity | now rewrite IH]. Qed.

Lemma quote_from_bytes_app (a b : list ascii) :
  PyUrl.quote_from_bytes (a ++ b)%list
  = PyUrl.quote_from_bytes a ++ PyUrl.quote_from_bytes b.
Proof.
  induction a as [|x a IH]; simpl; [reflexivity|].
  now rewrite IH, append_assoc.
Qed.

Lemma quote_cons (c : ascii) (s : string) :
  PyUrl.quote (String c s)
  = PyUrl.quote_from_bytes (PyUrl.utf8 c) ++ PyUrl.quote s.
Proof. unfold PyUrl.quote, PyUrl.encode; simpl; apply quote_from_bytes_app. Qed.

Lemma all_url_chars_app (a b : string) :
  all_url_chars (a ++ b) = all_url_chars a && all_url_chars b.
Proof.
  induction a as [|c a IH]; simpl; [reflexivity|].
  now rewrite IH, andb_assoc.
Qed.

Lemma quote_char_url (c : ascii) :
  all_url_chars (PyUrl.quote_from_bytes (PyUrl.utf8 c)) = true.
Proof. destruct c as [[] [] [] [] [] [] [] []]; reflexivity. Qed.

Lemma quote_url_chars (s : string) : all_url_chars (PyUrl.quote s) = true.
Proof.
  induction s as [|c s IH]; [reflexivity|].
  now rewrite quote_cons, all_url_chars_app, quote_char_url, IH.
Qed.

Lemma url_char_plain (c : ascii) :
  url_char c = true -> PyStr.isspace c = false /\ c <> ")"%char.
Proof.
  destruct c as [[] [] [] [] [] [] [] []]; intros H; try discriminate H;
    split; try reflexivity; discriminate.
Qed.

Lemma all_url_chars_In (s : string) (c : ascii) :
  all_url_chars s = true -> In c (list_ascii_of_string s) ->
  url_char c = true.
Proof.
  induction s as [|x s IH]; simpl; [intros _ []|].
  intros H [<- | Hin]; apply andb_true_iff in H as [Hx Hs]; auto.
Qed.

Lemma In_append (a b : string) (c : ascii) :
  In c (list_ascii_of_string (a ++ b)) ->
  In c (list_ascii_of_string a) \/ In c (list_ascii_of_string b).
Proof.
  induction a as [|x a IH]; simpl; [now right|].
  intros [<- | Hin]; [now left; left|].
  destruct (IH Hin); [left; right|right]; assumption.
Qed.

Lemma safe_char_quote (c : ascii) :
  PyUrl.always_safe c || PyUrl.default_safe c = true ->
  PyUrl.quote_from_bytes (PyUrl.utf8 c) = String c EmptyString.
Proof.
  destruct c as [[] [] [] [] [] [] [] []]; intros H; try discriminate H;
    reflexivity.
Qed.

Lemma unquote_quote_byte (b : ascii) (rest : string) :
  unquote_bytes (PyUrl.quote_byte b ++ rest) = b :: unquote_bytes rest.
Proof. destruct b as [[] [] [] [] [] [] [] []]; reflexivity. Qed.

Lemma unquote_quote_from_bytes (bs : list ascii) :
  unquote_bytes (PyUrl.quote_from_bytes bs) = bs.
Proof.
  induction bs as [|b bs IH]; simpl; [reflexivity|].
  now rewrite unquote_quote_byte, IH.
Qed.

Lemma utf8_decode_char (c : ascii) (rest : list ascii) :
  utf8_decode (PyUrl.utf8 c ++ rest)%list = String c (utf8_decode rest).
Proof. destruct c as [[] [] [] [] [] [] [] []]; reflexivity. Qed.

Lemma utf8_decode_encode (s : string) : utf8_decode (PyUrl.encode s) = s.
Proof.
  unfold PyUrl.encode; induction s as [|c s IH]; simpl; [reflexivity|].
  now rewrite utf8_decode_char, IH.
Qed.

Lemma quote_decodes (s : string) :
  utf8_decode (unquote_bytes (PyUrl.quote s)) = s.
Proof.
  unfold PyUrl.quote; now rewrite unquote_quote_from_bytes, utf8_decode_encode.
Qed.

Lemma append_inv_head (p a b : string) : p ++ a = p ++ b -> a = b.
Proof.
  induction p as [|c p IH]; simpl; [auto|].
  intros H; inversion H; auto.
Qed.

End Link.

(** X14. The quoted query is made of letters, digits and the characters
    [_ . - ~ / %] only, so the link holds no white space and no closing
    parenthesis, whatever the query is. *)
Theorem link_has_plain_characters (search_query : string) :
  all_url_chars (PyUrl.quote search_query) = true
  /\ forall c,
       In c (list_ascii_of_string (pmc_search_url search_query)) ->
       PyStr.isspace c = false /\ c <> ")"%char.
Proof.
  split; [apply quote_url_chars|].
  intros c Hc; unfold pmc_search_url in Hc; apply In_append in Hc as [Hc | Hc].
  - simpl in Hc;
      repeat (destruct Hc as [<- | Hc];
              [split; [reflexivity | discriminate]|]).
    destruct Hc.
  - apply url_char_plain, (all_url_chars_In (PyUrl.quote search_query));
      [apply quote_url_chars | exact Hc].
Qed.

(** X15. A query of letters, digits and the characters [_ . - ~ /] stands
    in the link as it is. *)
Theorem plain_query_is_not_escaped (search_query : string) :
  all_safe search_query = true ->
  PyUrl.quote search_query = search_query
  /\ pmc_search_url search_query
     = ("https://www.ncbi.nlm.nih.gov/pmc/?term=" ++ search_query)%string.
Proof.
  intros H.
  assert (PyUrl.quote search_query = search_query) as Hq.
  { induction search_query as [|c s IH]; [reflexivity|].
    simpl in H; apply andb_true_iff in H as [Hc Hs].
    rewrite quote_cons, (safe_char_quote c Hc), (IH Hs); reflexivity. }
  split; [exact Hq | unfold pmc_search_url; now rewrite Hq].
Qed.

Lemma plain_query_is_not_escaped_witness :
  PyUrl.quote "triclosan" = "triclosan"
  /\ pmc_search_url "triclosan"
     = ("https://www.ncbi.nlm.nih.gov/pmc/?term=" ++ "triclosan")%string.
Proof. apply plain_query_is_not_escaped; reflexivity. Defined.

(** X16. Two queries with the same link are the same query: escaping
    loses nothing of the query. *)
Theorem link_determines_query (q1 q2 : string) :
  pmc_search_url q1 = pmc_search_url q2 -> q1 = q2.
Proof.
  unfold pmc_search_url; intros H; apply append_inv_head in H.
  rewrite <- (quote_decodes q1), <- (quote_decodes q2); now rewrite H.
Qed.

Lemma link_determines_query_witness : "a b" = "a b".
Proof. apply link_determines_query; reflexivity. Defined.

(** * C3 on text of all code points *)

Section UnicodeText.

Variable to_lower_full : N -> list N.
Variable is_cased : N -> bool.
Variable is_case_ignorable : N -> bool.
Variable is_space : N -> bool.

(** Lower-casing keeps white space white space and makes no white space:
    a fact of the character database. *)
Hypothesis lower_keeps_space :
  forall c d, to_lower_full c = [d] -> is_space d = is_space c.

Local Abbreviation ulower :=
  (Unicode.lower to_lower_full is_cased is_case_ignorable).
Local Abbreviation udo_lower :=
  (Unicode.do_lower to_lower_full is_cased is_case_ignorable).
Local Abbreviation usplit := (Unicode.split is_space).
Local Abbreviation usplit_from := (Unicode.split_from is_space).
Local Abbreviation utext_match :=
  (Unicode.text_match to_lower_full is_cased is_case_ignorable is_space).
Local Abbreviation lower1 := (Unicode.lower_one to_lower_full).
Local Abbreviation USimple := (Unicode.Simple to_lower_full).
Local Abbreviation UOccurs :=
  (Unicode.OccursIgnoringCase to_lower_full is_cased is_case_ignorable).

Lemma uprefix_spec (w t : list N) :
  Unicode.prefix w t = true <-> exists post, t = w ++ post.
Proof.
  revert t; induction w as [|a w IH]; intros t; simpl.
  - split; [intros _; now exists t | reflexivity].
  - destruct t as [|b t].
    + split; [discriminate | intros [post H]; discriminate].
    + rewrite andb_true_iff, N.eqb_eq, IH; split.
      * intros [-> [post ->]]; now exists post.
      * intros [post H]; inversion H; subst; split; [reflexivity|].
        now exists post.
Qed.

Lemma ucontains_spec (w t : list N) :
  Unicode.contains w t = true <-> Unicode.Piece w t.
Proof.
  unfold Unicode.Piece; induction t as [|c t IH]; cbn [Unicode.contains].
  - rewrite orb_false_r, uprefix_spec; split.
    + intros [post H]; now exists [], post.
    + intros [[|x pre] [post H]]; [now exists post | discriminate].
  - rewrite orb_true_iff, uprefix_spec, IH; split.
    + intros [[post H] | [pre [post H]]].
      * now exists [], post.
      * exists (c :: pre), post; simpl; now rewrite H.
    + intros [[|x pre] [post H]].
      * left; now exists post.
      * right; exists pre, post; now inversion H.
Qed.

(** What [text_match] computes. *)
Lemma utext_match_spec (T Q : list N) :
  utext_match T Q = true <->
  T <> []
  /\ Forall (fun w => Unicode.Piece w (ulower T)) (usplit (ulower Q)).
Proof.
  unfold Unicode.text_match; destruct T as [|c T]; simpl negb; cbv iota.
  - split; [discriminate | intros [H _]; now elim H].
  - rewrite forallb_forall, Forall_forall; split.
    + intros H; split; [discriminate|]; intros w Hw.
      apply ucontains_spec, H, Hw.
    + intros [_ H] w Hw; apply ucontains_spec, H, Hw.
Qed.

(** On characters that are mapped one by one, [lower] is a map. *)
Lemma do_lower_simple (s : list N) :
  Forall USimple s -> forall before, udo_lower before s = map lower1 s.
Proof.
  induction 1 as [|c s [Hc [d Hd]] Hs IH]; intros before; simpl;
    [reflexivity|].
  apply N.eqb_neq in Hc; rewrite Hc, Hd; unfold Unicode.lower_one at 1.
  rewrite Hd; simpl; f_equal; apply IH.
Qed.

Lemma lower_simple (s : list N) :
  Forall USimple s -> ulower s = map lower1 s.
Proof. intros H; now apply do_lower_simple. Qed.

Lemma lower1_space (c : N) : USimple c -> is_space (lower1 c) = is_space c.
Proof.
  intros [_ [d Hd]]; unfold Unicode.lower_one; rewrite Hd.
  now apply lower_keeps_space.
Qed.

Lemma uflush_map (f : N -> N) (w : list N) :
  Unicode.flush (map f w) = map (map f) (Unicode.flush w).
Proof. destruct w; reflexivity. Qed.

Lemma usplit_from_map (s : list N) :
  Forall USimple s ->
  forall word,
    usplit_from (map lower1 word) (map lower1 s)
    = map (map lower1) (usplit_from word s).
Proof.
  induction 1 as [|c s Hc Hs IH]; intros word; simpl.
  - apply uflush_map.
  - rewrite (lower1_space c Hc); destruct (is_space c).
    + rewrite map_app, <- uflush_map; f_equal; apply (IH []).
    + rewrite <- IH, map_app; reflexivity.
Qed.

Lemma usplit_map (s : list N) :
  Forall USimple s ->
  usplit (map lower1 s) = map (map lower1) (usplit s).
Proof. intros H; exact (usplit_from_map s H []). Qed.

Lemma usplit_from_Forall (P : N -> Prop) (s : list N) :
  Forall P s ->
  forall word, Forall P word -> Forall (Forall P) (usplit_from word s).
Proof.
  assert (forall w, Forall P w -> Forall (Forall P) (Unicode.flush w))
    as Hflush
    by (intros [|x w] Hw; unfold Unicode.flush; simpl; constructor;
        [exact Hw | constructor]).
  induction 1 as [|c s Hc Hs IH]; intros word Hword; simpl.
  - now apply Hflush.
  - destruct (is_space c).
    + apply Forall_app; split; [now apply Hflush | apply IH; constructor].
    + apply IH, Forall_app; split; [exact Hword | now repeat constructor].
Qed.

(** For characters mapped one by one, to occur with case ignored is to
    occur after both sides are put in lower case. *)
Lemma occurs_simple (T w : list N) :
  Forall USimple T -> Forall USimple w ->
  (UOccurs w T <-> Unicode.Piece (map lower1 w) (map lower1 T)).
Proof.
  intros HT Hw; split.
  - intros (pre & u & post & -> & Hu).
    apply Forall_app in HT as [_ HT]; apply Forall_app in HT as [Hsu _].
    rewrite (lower_simple u Hsu), (lower_simple w Hw) in Hu.
    exists (map lower1 pre), (map lower1 post).
    now rewrite !map_app, Hu.
  - intros (pre' & post' & H).
    apply map_eq_app in H as (pre & rest & -> & _ & H).
    apply map_eq_app in H as (u & post & -> & Hu & _).
    apply Forall_app in HT as [_ HT]; apply Forall_app in HT as [Hsu _].
    exists pre, u, post; split; [reflexivity|].
    now rewrite (lower_simple u Hsu), (lower_simple w Hw).
Qed.

(** C3, as the code has it. [text_match T Q] is true exactly when [T] is
    not empty and every word of the lower-cased query stands in the
    lower-cased title, each of the two strings put in lower case as a
    whole. When [T] and [Q] hold no capital sigma and no character with a
    longer lower-case mapping, this is to say that every white-space
    delimited word of [Q] occurs in [T] with case ignored. An empty title
    matches no query. *)
Theorem text_match_lowered_words (T Q : list N) :
  (utext_match T Q = true <->
   T <> []
   /\ Forall (fun w => Unicode.Piece w (ulower T)) (usplit (ulower Q)))
  /\ (Forall USimple T -> Forall USimple Q ->
      (utext_match T Q = true <->
       T <> [] /\ Forall (fun w => UOccurs w T) (usplit Q)))
  /\ utext_match [] Q = false.
Proof.
  split; [apply utext_match_spec|]; split; [|reflexivity].
  intros HT HQ; rewrite utext_match_spec.
  rewrite (lower_simple Q HQ), (lower_simple T HT).
  rewrite (usplit_map Q HQ), Forall_map.
  pose proof (usplit_from_Forall USimple Q HQ [] (Forall_nil _)) as Hwords.
  fold (usplit Q) in Hwords.
  rewrite Forall_forall in Hwords; rewrite !Forall_forall.
  split; intros [Hne H]; (split; [exact Hne|]); intros w Hw.
  - apply (occurs_simple T w HT (Hwords w Hw)), H, Hw.
  - apply (occurs_simple T w HT (Hwords w Hw)), H, Hw.
Qed.

End UnicodeText.

Lemma below_1024 (P : N -> bool) :
  forallb P (map N.of_nat (seq 0 1024)) = true ->
  forall c, (c < 1024)%N -> P c = true.
Proof.
  intros H c Hc; rewrite forallb_forall in H; apply H.
  apply in_map_iff; exists (N.to_nat c); split; [apply N2Nat.id|].
  apply in_seq; lia.
Qed.

Lemma excerpt_lower_keeps_space (c d : N) :
  Unicode.excerpt_to_lower_full c = [d] ->
  Unicode.excerpt_is_space d = Unicode.excerpt_is_space c.
Proof.
  destruct (N.ltb_spec c 1024) as [Hlt | Hge].
  - pose proof (below_1024
      (fun c => match Unicode.excerpt_to_lower_full c with
                | [d] => Bool.eqb (Unicode.excerpt_is_space d)
                           (Unicode.excerpt_is_space c)
                | _ => true
                end) eq_refl c Hlt) as H.
    cbv beta in H; intros Hd; rewrite Hd in H; now apply eqb_prop.
  - unfold Unicode.excerpt_to_lower_full.
    apply N.leb_le in Hge; rewrite Hge; intros H; now inversion H.
Qed.

Lemma text_match_lowered_words_witness :
  Forall (Unicode.Simple Unicode.excerpt_to_lower_full) [913; 925; 913]%N
  /\ Forall (Unicode.Simple Unicode.excerpt_to_lower_full) [957; 945]%N
  /\ (Unicode.excerpt_text_match [913; 925; 913]%N [957; 945]%N = true <->
      [913; 925; 913]%N <> []
      /\ Forall (fun w =>
           Unicode.OccursIgnoringCase Unicode.excerpt_to_lower_full
             Unicode.excerpt_is_cased Unicode.excerpt_is_case_ignorable
             w [913; 925; 913]%N)
           (Unicode.split Unicode.excerpt_is_space [957; 945]%N)).
Proof.
  assert (Forall (Unicode.Simple Unicode.excerpt_to_lower_full)
            [913; 925; 913]%N) as HT
    by (repeat constructor; try discriminate; eexists; reflexivity).
  assert (Forall (Unicode.Simple Unicode.excerpt_to_lower_full)
            [957; 945]%N) as HQ
    by (repeat constructor; try discriminate; eexists; reflexivity).
  split; [exact HT|]; split; [exact HQ|].
  exact (proj1 (proj2 (text_match_lowered_words
                         Unicode.excerpt_to_lower_full
                         Unicode.excerpt_is_cased
                         Unicode.excerpt_is_case_ignorable
                         Unicode.excerpt_is_space
                         excerpt_lower_keeps_space
                         [913; 925; 913]%N [957; 945]%N)) HT HQ).
Defined.

(** The title is the Greek word of the capitals alpha, nu, alpha, lambda,
    upsilon, sigma, eta, and the query its piece lambda, upsilon, sigma.
    The query stands in the title as it is, yet [text_match] is false:
    the sigma of the query ends its word and becomes a final sigma, the
    sigma of the title does not. *)
Lemma capital_sigma_word_is_missed :
  ~ (Unicode.excerpt_text_match
       [913; 925; 913; 923; 933; 931; 919]%N [923; 933; 931]%N = true <->
     [913; 925; 913; 923; 933; 931; 919]%N <> []
     /\ Forall (fun w =>
          Unicode.OccursIgnoringCase Unicode.excerpt_to_lower_full
            Unicode.excerpt_is_cased Unicode.excerpt_is_case_ignorable
            w [913; 925; 913; 923; 933; 931; 919]%N)
          (Unicode.split Unicode.excerpt_is_space [923; 933; 931]%N)).
Proof.
  intros [_ H].
  assert (Unicode.excerpt_text_match
            [913; 925; 913; 923; 933; 931; 919]%N [923; 933; 931]%N = true)
    as Hmatch.
  { apply H; split; [discriminate|].
    change (Unicode.split Unicode.excerpt_is_space [923; 933; 931]%N)
      with [[923; 933; 931]%N].
    constructor; [|constructor].
    exists [913; 925; 913]%N, [923; 933; 931]%N, [919]%N.
    split; reflexivity. }
  vm_compute in Hmatch; discriminate Hmatch.
Qed.

(** ** The 8-bit strings inside the text of all code points

    On strings of code points below 256 the definitions of [PyStr] and
    those of [Unicode] over the excerpt of the database say the same. *)

Section Codes.

Local Open Scope string_scope.

Lemma code_lower (c : ascii) :
  Unicode.excerpt_to_lower_full (N_of_ascii c)
  = [N_of_ascii (PyStr.lower_char c)].
Proof. destruct c as [[] [] [] [] [] [] [] []]; reflexivity. Qed.

Lemma code_not_sigma (c : ascii) :
  (N_of_ascii c =? Unicode.capital_sigma)%N = false.
Proof. destruct c as [[] [] [] [] [] [] [] []]; reflexivity. Qed.

Lemma code_space (c : ascii) :
  Unicode.excerpt_is_space (N_of_ascii c) = PyStr.isspace c.
Proof. destruct c as [[] [] [] [] [] [] [] []]; reflexivity. Qed.

Lemma code_eqb (a b : ascii) :
  (N_of_ascii a =? N_of_ascii b)%N
  = if Ascii.ascii_dec a b then true else false.
Proof.
  destruct (Ascii.ascii_dec a b) as [-> | Hne]; [apply N.eqb_refl|].
  apply N.eqb_neq; intros H; apply Hne.
  now rewrite <- (ascii_N_embedding a), <- (ascii_N_embedding b), H.
Qed.

Lemma codes_app (a b : string) :
  Unicode.codes (a ++ b) = (Unicode.codes a ++ Unicode.codes b)%list.
Proof.
  unfold Unicode.codes; induction a as [|c a IH]; simpl;
    [reflexivity | now rewrite IH].
Qed.

Lemma lower_codes (s : string) (before : list N) :
  Unicode.do_lower Unicode.excerpt_to_lower_full Unicode.excerpt_is_cased
    Unicode.excerpt_is_case_ignorable before (Unicode.codes s)
  = Unicode.codes (PyStr.lower s).
Proof.
  revert before; induction s as [|c s IH]; intros before; [reflexivity|].
  unfold Unicode.codes; simpl.
  rewrite code_not_sigma, code_lower; simpl; f_equal; apply IH.
Qed.

Lemma flush_codes (w : string) :
  Unicode.flush (Unicode.codes w) = map Unicode.codes (PyStr.flush w).
Proof. destruct w; reflexivity. Qed.

Lemma split_from_codes (s word : string) :
  Unicode.split_from Unicode.excerpt_is_space
    (Unicode.codes word) (Unicode.codes s)
  = map Unicode.codes (PyStr.split_from word s).
Proof.
  revert word; induction s as [|c s IH]; intros word.
  - apply flush_codes.
  - unfold Unicode.codes at 2; simpl; fold (Unicode.codes s).
    rewrite code_space; destruct (PyStr.isspace c).
    + rewrite map_app, <- flush_codes; f_equal; apply (IH EmptyString).
    + rewrite <- IH, codes_app; reflexivity.
Qed.

Lemma prefix_codes (w t : string) :
  Unicode.prefix (Unicode.codes w) (Unicode.codes t) = String.prefix w t.
Proof.
  revert t; induction w as [|a w IH]; intros t; [now destruct t|].
  destruct t as [|b t]; [reflexivity|].
  unfold Unicode.codes; simpl; fold (Unicode.codes w) (Unicode.codes t).
  rewrite code_eqb, IH; now destruct (Ascii.ascii_dec a b).
Qed.

Lemma contains_codes (w t : string) :
  Unicode.contains (Unicode.codes w) (Unicode.codes t) = PyStr.contains w t.
Proof.
  induction t as [|c t IH].
  - cbn [PyStr.contains]; rewrite <- prefix_codes; reflexivity.
  - cbn [PyStr.contains]; rewrite <- prefix_codes, <- IH; reflexivity.
Qed.

(** On strings of code points below 256, [text_match] of the 8-bit model
    is [text_match] on all code points. *)
Lemma text_match_codes (T Q : string) :
  Unicode.excerpt_text_match (Unicode.codes T) (Unicode.codes Q)
  = text_match T Q.
Proof.
  unfold Unicode.excerpt_text_match, Unicode.text_match, text_match.
  unfold Unicode.lower, Unicode.split, PyStr.split; rewrite !lower_codes.
  replace (Unicode.truthy (Unicode.codes T)) with (PyStr.truthy T)
    by (now destruct T).
  destruct (PyStr.truthy T); simpl; [|reflexivity].
  change (@nil N) with (Unicode.codes EmptyString) at 1.
  rewrite (split_from_codes (PyStr.lower Q) EmptyString).
  induction (PyStr.split_from EmptyString (PyStr.lower Q)) as [|w l IH];
    simpl; [reflexivity|].
  now rewrite contains_codes, IH.
Qed.

End Codes.
